(** * Verification of the SSE manager (src/lib/sse/index.ts)

    A shallow embedding of the connection registry, the event frame codec
    and the heartbeat reaper of [SSEManager], with the properties stated by
    the specification of the repository.

    Conventions of the embedding:
    - a JS [Map<string, V>] is a [gmap string V], a [Set<string>] a
      [gset string]; loops over them visit the elements once each, and no
      result proved here depends on the order of the visit;
    - [number] values (timestamps, delays) are integers of [Z]; the
      connection cap is a count, a [nat];
    - a [ReadableStreamDefaultController] is a reference into a store of
      streams shared by all connection records, so that two records holding
      the same controller alias the same sink;
    - a call that may throw returns a [Completion];
    - calls to the logger are left out: they do not touch the registry. *)

From Stdlib Require Import Ascii String.
From stdpp Require Import gmap strings list pretty.

Local Open Scope string_scope.

(** ** JavaScript values and [JSON.stringify] *)

Module Json.

(** The line feed and the double quote. *)
Definition LF : ascii := "010"%char.
Definition DQUOTE : ascii := "034"%char.
Definition BACKSLASH : ascii := "092"%char.

Definition nl : string := String LF EmptyString.

(** The values an event payload ([data: any]) is built from. [JNum n] is an
    integral number below 10^21 in magnitude, which JavaScript prints as its
    decimal numeral; [JObject] lists the own enumerable properties in
    enumeration order. Strings are UTF-8 text. *)
#[warnings="-register-all"]
Inductive JsValue : Type :=
  | JUndefined
  | JNull
  | JBool (b : bool)
  | JNum (n : Z)
  | JString (s : string)
  | JArray (items : list JsValue)
  | JObject (props : list (string * JsValue)).

Definition hex_digit (n : N) : ascii :=
  if decide (n < 10)%N
  then ascii_of_N (48 + n)
  else ascii_of_N (87 + n).

(** [QuoteJSONString], one character at a time. *)
Definition quote_char (c : ascii) : string :=
  let n := N_of_ascii c in
  if decide (n = 34)%N then String BACKSLASH (String DQUOTE EmptyString)
  else if decide (n = 92)%N then String BACKSLASH (String BACKSLASH EmptyString)
  else if decide (n = 8)%N then String BACKSLASH "b"
  else if decide (n = 12)%N then String BACKSLASH "f"
  else if decide (n = 10)%N then String BACKSLASH "n"
  else if decide (n = 13)%N then String BACKSLASH "r"
  else if decide (n = 9)%N then String BACKSLASH "t"
  else if decide (n < 32)%N
       then String BACKSLASH
              (String "u" (String "0" (String "0"
                (String (hex_digit (n `div` 16)%N)
                  (String (hex_digit (n `mod` 16)%N) EmptyString)))))
  else String c EmptyString.

Fixpoint quote_body (s : string) : string :=
  match s with
  | EmptyString => EmptyString
  | String c s' => quote_char c +:+ quote_body s'
  end.

Definition quote (s : string) : string :=
  String DQUOTE (quote_body s +:+ String DQUOTE EmptyString).

Fixpoint join (sep : string) (parts : list string) : string :=
  match parts with
  | [] => ""
  | [p] => p
  | p :: rest => p +:+ sep +:+ join sep rest
  end.

(** [JSON.stringify(value)] without replacer or indentation. [None] is the
    result [undefined]. Inside an array [undefined] prints as [null]; inside
    an object a property whose value is [undefined] is left out. *)
Fixpoint stringify (v : JsValue) : option string :=
  match v with
  | JUndefined => None
  | JNull => Some "null"
  | JBool b => Some (if b then "true" else "false")
  | JNum n => Some (pretty n)
  | JString s => Some (quote s)
  | JArray items =>
      Some ("[" +:+ join "," (map (λ x, default "null" (stringify x)) items)
            +:+ "]")
  | JObject props =>
      Some ("{" +:+
            join ","
              ((fix members (ps : list (string * JsValue)) : list string :=
                  match ps with
                  | [] => []
                  | (k, x) :: ps' =>
                      match stringify x with
                      | Some t => (quote k +:+ ":" +:+ t) :: members ps'
                      | None => members ps'
                      end
                  end) props)
            +:+ "}")
  end.

(** [String.prototype.split] with a one-character separator. *)
Fixpoint split (sep : ascii) (s : string) : list string :=
  match s with
  | EmptyString => [EmptyString]
  | String c s' =>
      if decide (c = sep) then EmptyString :: split sep s'
      else match split sep s' with
           | x :: xs => String c x :: xs
           | [] => [String c EmptyString]
           end
  end.

(** A string holds the character [c]. *)
Fixpoint occurs (c : ascii) (s : string) : Prop :=
  match s with
  | EmptyString => False
  | String d s' => d = c ∨ occurs c s'
  end.

(** JavaScript truthiness of the values the codec and the registry test. *)
Definition truthy_string (s : string) : bool :=
  negb (bool_decide (s = "")).

Definition truthy_number (n : Z) : bool :=
  negb (bool_decide (n = 0%Z)).

End Json.

Import Json.

(** ** The event frame codec *)

Record SSEEvent : Type := mkEvent {
  ev_type : string;
  ev_data : JsValue;
  ev_id : option string;
  ev_retry : option Z
}.

Module Codec.

Definition id_line (event : SSEEvent) : string :=
  match ev_id event with
  | Some i => if truthy_string i then "id: " +:+ i +:+ nl else ""
  | None => ""
  end.

Definition event_line (event : SSEEvent) : string :=
  if truthy_string (ev_type event)
  then "event: " +:+ ev_type event +:+ nl
  else "".

Definition retry_line (event : SSEEvent) : string :=
  match ev_retry event with
  | Some r => if truthy_number r then "retry: " +:+ pretty r +:+ nl else ""
  | None => ""
  end.

(** The three header fields, in the order the code appends them. *)
Definition header (event : SSEEvent) : string :=
  id_line event +:+ event_line event +:+ retry_line event.

(** [typeof event.data === "string" ? event.data : JSON.stringify(event.data)] *)
Definition dataString (event : SSEEvent) : option string :=
  match ev_data event with
  | JString s => Some s
  | d => stringify d
  end.

Definition data_line (line : string) : string :=
  "data: " +:+ line +:+ nl.

(** The payload [data] is serializable, to [text]: it is a string, taken as
    it is, or a value [JSON.stringify] maps to a text. *)
Definition serializes_to (d : JsValue) (text : string) : Prop :=
  match d with
  | JString s => text = s
  | _ => stringify d = Some text
  end.

(** The data lines of a frame, one after the other. *)
Definition data_lines (lines : list string) : string :=
  foldr (λ line rest, data_line line +:+ rest) "" lines.

(** [formatSSEMessage]. [None] stands for the [TypeError] raised by
    [dataString.split] when [JSON.stringify] has returned [undefined]. *)
Definition formatSSEMessage (event : SSEEvent) : option string :=
  match dataString event with
  | None => None
  | Some text =>
      let message := header event in
      let message :=
        foldl (λ m line, m +:+ data_line line) message (split LF text) in
      Some (message +:+ nl)
  end.

End Codec.

Import Codec.

(** ** Streams: the sinks the registry writes to *)

(** A controller is a reference to a stream; the streams live in a store. *)
Abbreviation Controller := nat (only parsing).

Record Stream : Type := mkStream {
  readable : bool;          (* the stream still accepts chunks *)
  chunks : list string      (* what was enqueued, oldest first *)
}.

Inductive Completion (A : Type) : Type :=
  | Normal (a : A)
  | Throw (msg : string).
Arguments Normal {A} a.
Arguments Throw {A} msg.

Module Sink.

(** [controller.enqueue(chunk)]: appends the chunk to a readable stream and
    throws ([None]) on a stream that is closed. A reference to no stream of
    the store behaves as a closed stream. *)
Definition enqueue (r : Controller) (chunk : string)
    (h : gmap nat Stream) : option (gmap nat Stream) :=
  match h !! r with
  | Some st =>
      if readable st
      then Some (<[r := mkStream true (chunks st ++ [chunk])]> h)
      else None
  | None => None
  end.

(** [controller.close()]: closes a readable stream, throws on a closed one. *)
Definition close (r : Controller)
    (h : gmap nat Stream) : option (gmap nat Stream) :=
  match h !! r with
  | Some st =>
      if readable st
      then Some (<[r := mkStream false (chunks st)]> h)
      else None
  | None => None
  end.

Definition is_readable (h : gmap nat Stream) (r : Controller) : bool :=
  match h !! r with
  | Some st => readable st
  | None => false
  end.

Definition written (h : gmap nat Stream) (r : Controller) : list string :=
  match h !! r with
  | Some st => chunks st
  | None => []
  end.

End Sink.

(** ** The connection registry *)

Record SSEClient : Type := mkClient {
  id : string;
  userId : option string;
  sessionId : option string;
  controller : Controller;
  lastPing : Z;
  metadata : option JsValue
}.

Record SSEManagerConfig : Type := mkConfig {
  heartbeatInterval : Z;
  connectionTimeout : Z;
  maxConnections : nat
}.

(** The fields of [SSEManager], and the store of the streams its
    controllers refer to. [heartbeatTimer] tells whether the interval timer
    is running. *)
Record SSEManager : Type := mkManager {
  clients : gmap string SSEClient;
  userConnections : gmap string (gset string);
  config : SSEManagerConfig;
  heartbeatTimer : bool;
  streams : gmap nat Stream
}.

Definition set_clients (cs : gmap string SSEClient) (m : SSEManager) :=
  mkManager cs (userConnections m) (config m) (heartbeatTimer m) (streams m).

Definition set_userConnections (uc : gmap string (gset string))
    (m : SSEManager) :=
  mkManager (clients m) uc (config m) (heartbeatTimer m) (streams m).

Definition set_streams (h : gmap nat Stream) (m : SSEManager) :=
  mkManager (clients m) (userConnections m) (config m) (heartbeatTimer m) h.

Definition set_heartbeatTimer (b : bool) (m : SSEManager) :=
  mkManager (clients m) (userConnections m) (config m) b (streams m).

Definition set_lastPing (t : Z) (c : SSEClient) : SSEClient :=
  mkClient (id c) (userId c) (sessionId c) (controller c) t (metadata c).

Definition defaultConfig : SSEManagerConfig :=
  mkConfig 30000 60000 1000.

(** The constructor, with the configuration already merged with the
    defaults; [h] is the store of the streams that exist. *)
Definition newSSEManager (cfg : SSEManagerConfig)
    (h : gmap nat Stream) : SSEManager :=
  mkManager ∅ ∅ cfg true h.

(** [removeClient] *)
Definition removeClient (clientId : string) (m : SSEManager) : SSEManager :=
  match clients m !! clientId with
  | None => m
  | Some client =>
      (* Remove from user connections tracking *)
      let uc :=
        match userId client with
        | Some u =>
            if truthy_string u then
              match userConnections m !! u with
              | Some userClients =>
                  let userClients' := userClients ∖ {[clientId]} in
                  if decide (size userClients' = 0)
                  then delete u (userConnections m)
                  else <[u := userClients']> (userConnections m)
              | None => userConnections m
              end
            else userConnections m
        | None => userConnections m
        end in
      (* Close the connection; an error of [close] is caught *)
      let h :=
        match Sink.close (controller client) (streams m) with
        | Some h' => h'
        | None => streams m
        end in
      mkManager (delete clientId (clients m)) uc (config m)
        (heartbeatTimer m) h
  end.

(** [sendToClient]: the [try] block covers the encoding and the write. *)
Definition sendToClient (clientId : string) (event : SSEEvent)
    (m : SSEManager) : SSEManager * bool :=
  match clients m !! clientId with
  | None => (m, false)
  | Some client =>
      match formatSSEMessage event with
      | Some sseData =>
          match Sink.enqueue (controller client) sseData (streams m) with
          | Some h => (set_streams h m, true)
          | None => (removeClient clientId m, false)
          end
      | None => (removeClient clientId m, false)
      end
  end.

(** The event [addClient] sends to the connection it has registered. *)
Definition connectionEvent (clientId : string) (now : Z) : SSEEvent :=
  mkEvent "connection"
    (JObject [("status", JString "connected");
              ("clientId", JString clientId);
              ("timestamp", JNum now)])
    None None.

(** The first half of [addClient], once the cap has let the call through:
    the record is stored under its id and the id is put in the set of its
    user. [now1] is the first reading of [Date.now()]. *)
Definition register (clientId : string) (ctrl : Controller)
    (user session : option string) (meta : option JsValue)
    (now1 : Z) (m : SSEManager) : SSEManager :=
  let client := mkClient clientId user session ctrl now1 meta in
  let m1 := set_clients (<[clientId := client]> (clients m)) m in
  (* Track user connections *)
  match user with
  | Some u =>
      if truthy_string u then
        let uc :=
          match userConnections m1 !! u with
          | Some _ => userConnections m1
          | None => <[u := ∅]> (userConnections m1)
          end in
        set_userConnections (alter (λ s, s ∪ {[clientId]}) u uc) m1
      else m1
  | None => m1
  end.

(** [addClient]; [now2] is the second reading of [Date.now()], for the
    confirmation the new connection is sent. *)
Definition addClient (clientId : string) (ctrl : Controller)
    (user session : option string) (meta : option JsValue)
    (now1 now2 : Z) (m : SSEManager) : Completion unit * SSEManager :=
  if decide (maxConnections (config m) ≤ size (clients m))%nat
  then (Throw "Maximum connections reached", m)
  else
    let m2 := register clientId ctrl user session meta now1 m in
    (Normal (), (sendToClient clientId (connectionEvent clientId now2) m2).1).

(** One turn of the counting loops of [sendToUser] and [broadcast]. *)
Definition send_count (event : SSEEvent) (acc : SSEManager * nat)
    (clientId : string) : SSEManager * nat :=
  let '(m', ok) := sendToClient clientId event acc.1 in
  (m', if ok then S acc.2 else acc.2).

(** [sendToUser]. The loop body takes out of the set it walks over at most
    the element it is visiting (see [sendToClient_index_other]), so the
    walk visits the elements the set has on entry. *)
Definition sendToUser (user : string) (event : SSEEvent)
    (m : SSEManager) : SSEManager * nat :=
  match userConnections m !! user with
  | None => (m, 0)
  | Some userClients =>
      if decide (size userClients = 0) then (m, 0)
      else foldl (send_count event) (m, 0) (elements userClients)
  end.

(** [this.clients.keys()]. The loops over the keys delete from the
    connection map at most the key they are visiting
    (see [sendToClient_clients]), so they visit the keys the map has on
    entry. *)
Definition keys (m : SSEManager) : list string :=
  (map_to_list (clients m)).*1.

(** [broadcast] *)
Definition broadcast (event : SSEEvent) (m : SSEManager) : SSEManager * nat :=
  foldl (send_count event) (m, 0) (keys m).

Record Stats : Type := mkStats {
  totalConnections : nat;
  uniqueUsers : nat;
  connectionsByUser : list (string * nat)
}.

(** [getStats] *)
Definition getStats (m : SSEManager) : Stats :=
  mkStats (size (clients m)) (size (userConnections m))
    ((λ p, (p.1, size p.2)) <$> map_to_list (userConnections m)).

(** ** The heartbeat reaper *)

Definition heartbeatEvent (now : Z) : SSEEvent :=
  mkEvent "heartbeat" (JObject [("timestamp", JNum now)]) None None.

(** [now - client.lastPing > this.config.connectionTimeout] *)
Definition is_dead (now : Z) (cfg : SSEManagerConfig) (c : SSEClient) : bool :=
  bool_decide (connectionTimeout cfg < now - lastPing c)%Z.

Definition deadClients (now : Z) (m : SSEManager) : list string :=
  (filter (λ p, is_dead now (config m) p.2 = true)
     (map_to_list (clients m))).*1.

(** The first loop of the callback: the dead connections are removed. *)
Definition reap (now : Z) (m : SSEManager) : SSEManager :=
  foldl (λ acc clientId, removeClient clientId acc) m (deadClients now m).

(** One turn of its second loop: the heartbeat is sent, and [lastPing] is
    updated when the send has succeeded. *)
Definition ping (now : Z) (m : SSEManager) (clientId : string) : SSEManager :=
  let '(m', ok) := sendToClient clientId (heartbeatEvent now) m in
  if ok then
    match clients m' !! clientId with
    | Some client =>
        set_clients (<[clientId := set_lastPing now client]> (clients m')) m'
    | None => m'
    end
  else m'.

(** The callback [startHeartbeat] hands to [setInterval]. *)
Definition heartbeat (now : Z) (m : SSEManager) : SSEManager :=
  let m1 := reap now m in
  foldl (ping now) m1 (keys m1).

(** [destroy] *)
Definition destroy (m : SSEManager) : SSEManager :=
  let m1 := if heartbeatTimer m then set_heartbeatTimer false m else m in
  foldl (λ acc clientId, removeClient clientId acc) m1 (keys m1).

(** ** Runs of the registry *)

(** What can happen to a registry: the calls of its public methods, the
    firing of its timer, and what the transport does to the streams. *)
Inductive Step : Type :=
  | CallAddClient (clientId : string) (ctrl : Controller)
      (user session : option string) (meta : option JsValue) (now1 now2 : Z)
  | CallRemoveClient (clientId : string)
  | CallSendToClient (clientId : string) (event : SSEEvent)
  | CallSendToUser (user : string) (event : SSEEvent)
  | CallBroadcast (event : SSEEvent)
  | TimerFires (now : Z)
  | CallDestroy
  | StreamOpens (r : Controller)
  | StreamCloses (r : Controller).

Definition step (st : Step) (m : SSEManager) : SSEManager :=
  match st with
  | CallAddClient clientId ctrl user session meta now1 now2 =>
      (addClient clientId ctrl user session meta now1 now2 m).2
  | CallRemoveClient clientId => removeClient clientId m
  | CallSendToClient clientId event => (sendToClient clientId event m).1
  | CallSendToUser user event => (sendToUser user event m).1
  | CallBroadcast event => (broadcast event m).1
  | TimerFires now => if heartbeatTimer m then heartbeat now m else m
  | CallDestroy => destroy m
  | StreamOpens r =>
      match streams m !! r with
      | None => set_streams (<[r := mkStream true []]> (streams m)) m
      | Some _ => m
      end
  | StreamCloses r =>
      match Sink.close r (streams m) with
      | Some h => set_streams h m
      | None => m
      end
  end.

Definition run (steps : list Step) (m : SSEManager) : SSEManager :=
  foldl (λ acc st, step st acc) m steps.

(** A run registers fresh ids only: no [addClient] names an id that is
    registered at the time of the call. *)
Fixpoint fresh_ids (steps : list Step) (m : SSEManager) : Prop :=
  match steps with
  | [] => True
  | st :: rest =>
      match st with
      | CallAddClient clientId _ _ _ _ _ _ => clients m !! clientId = None
      | _ => True
      end ∧ fresh_ids rest (step st m)
  end.

(** The set the index holds for a user, empty when it holds none. *)
Definition index (m : SSEManager) (user : string) : gset string :=
  default ∅ (userConnections m !! user).

(** The connection map holds [clientId], recorded for user [user]. *)
Definition registered_for (m : SSEManager) (clientId user : string) : Prop :=
  ∃ c, clients m !! clientId = Some c ∧ userId c = Some user.

(** The index holds exactly the connections recorded for a user, the empty
    user id apart, which the registry takes for no user. *)
Definition index_matches (m : SSEManager) : Prop :=
  ∀ user clientId,
    clientId ∈ index m user ↔ registered_for m clientId user ∧ user ≠ "".

(** The index maps no user to the empty set. *)
Definition no_empty_entry (m : SSEManager) : Prop :=
  ∀ user s, userConnections m !! user = Some s → s ≠ ∅.

Definition registry_invariant (m : SSEManager) : Prop :=
  index_matches m ∧ no_empty_entry m.

(** The connection takes the frame of the event: it is registered, the event
    can be encoded, and the stream of its controller accepts the chunk. *)
Definition accepts (m : SSEManager) (event : SSEEvent)
    (clientId : string) : bool :=
  match clients m !! clientId with
  | Some c =>
      match formatSSEMessage event with
      | Some _ => Sink.is_readable (streams m) (controller c)
      | None => false
      end
  | None => false
  end.

(** The controller the connection map records for an id. *)
Definition controller_of (m : SSEManager) (clientId : string) : option nat :=
  controller <$> clients m !! clientId.

(** The connection takes the frame of the event on the stream [r]. *)
Definition takes_on (m : SSEManager) (event : SSEEvent) (r : Controller)
    (clientId : string) : Prop :=
  accepts m event clientId = true ∧ controller_of m clientId = Some r.

(** How many of the connections [ids] take the frame on the stream [r]. *)
Definition takers (m : SSEManager) (event : SSEEvent) (r : Controller)
    (ids : list string) : nat :=
  length (filter (takes_on m event r) ids).

(** The connections of [ids] that are registered and do not take the frame:
    the ones a send evicts. *)
Definition fails (m : SSEManager) (event : SSEEvent)
    (clientId : string) : Prop :=
  is_Some (clients m !! clientId) ∧ accepts m event clientId = false.

(** The body of the loops of [sendToUser] and [broadcast], the count left
    out. *)
Definition send_to (event : SSEEvent) (m : SSEManager)
    (clientId : string) : SSEManager :=
  (sendToClient clientId event m).1.

(** The value of a property of an object. *)
Fixpoint property (name : string) (props : list (string * JsValue))
    : option JsValue :=
  match props with
  | [] => None
  | (k, v) :: rest => if decide (k = name) then Some v else property name rest
  end.

Definition field (name : string) (v : JsValue) : option JsValue :=
  match v with
  | JObject props => property name props
  | _ => None
  end.

(** ** A small registry to run the operations on *)

Module Example.

Definition open_streams : gmap nat Stream :=
  <[1 := mkStream true []]>
    (<[2 := mkStream true []]> (<[3 := mkStream true []]> ∅)).

Definition fresh : SSEManager := newSSEManager defaultConfig open_streams.

(** Two connections of user [u1], one of user [u2]; then the stream of the
    second connection stops accepting chunks. *)
Definition setup : list Step :=
  [CallAddClient "c1" 1 (Some "u1") None None 5 6;
   CallAddClient "c2" 2 (Some "u1") None None 5 6;
   CallAddClient "c3" 3 (Some "u2") None None 5 6;
   StreamCloses 2].

Definition busy : SSEManager := run setup fresh.

Definition note : SSEEvent :=
  mkEvent "notification" (JObject [("a", JNum 1)]) (Some "x1") None.

(** A registry that holds one connection and has room for no other. *)
Definition full : SSEManager :=
  run [CallAddClient "c1" 1 (Some "u1") None None 5 6]
    (newSSEManager (mkConfig 30000 60000 1) open_streams).

End Example.

(** * Further definitions: the rest of the manager, the notification
      utilities and the route *)

(** ** Characters of a text *)

(** Every character of the string satisfies [P]. *)
Fixpoint all_chars (P : ascii → Prop) (s : string) : Prop :=
  match s with
  | EmptyString => True
  | String c s' => P c ∧ all_chars P s'
  end.

(** The characters of a decimal numeral: the digits and the minus sign. *)
Definition decimal_char (c : ascii) : Prop :=
  c = "-"%char ∨ (48 ≤ N_of_ascii c ≤ 57)%N.

(** ** Connections that are dropped *)

(** From [m] to [m'] no stream has come to accept chunks again, the records
    that are left have the controller they had, and the stream of each
    connection that is gone accepts no chunk. *)
Definition drops_closed (m m' : SSEManager) : Prop :=
  (∀ r, Sink.is_readable (streams m) r = false →
        Sink.is_readable (streams m') r = false)
  ∧ (∀ k c', clients m' !! k = Some c' →
             ∃ c, clients m !! k = Some c ∧ controller c' = controller c)
  ∧ (∀ k c, clients m !! k = Some c → clients m' !! k = None →
            Sink.is_readable (streams m') (controller c) = false).

(** ** What the statistics count *)

(** The user a record is indexed under: its user id, unless that is absent
    or the empty string. *)
Definition indexed_user (c : SSEClient) : option string :=
  match userId c with
  | Some u => if truthy_string u then Some u else None
  | None => None
  end.

(** The users that have a connection. *)
Definition users_of (m : SSEManager) : gset string :=
  list_to_set (omap (λ p, indexed_user p.2) (map_to_list (clients m))).

(** The connections the connection map records for a user. *)
Definition connections_of (m : SSEManager) (user : string) : gset string :=
  dom (filter (λ p, userId p.2 = Some user) (clients m)).

(** ** The notification utilities (src/lib/sse/notifications.ts) *)

Module Notifications.

(** JavaScript truthiness of a value. *)
Definition truthy (v : JsValue) : bool :=
  match v with
  | JUndefined | JNull => false
  | JBool b => b
  | JNum n => truthy_number n
  | JString s => truthy_string s
  | JArray _ | JObject _ => true
  end.

(** [a || b] *)
Definition or_else (a b : JsValue) : JsValue :=
  if truthy a then a else b.

(** [obj.name]: the value of the property, [undefined] when there is
    none. *)
Definition get (name : string) (props : list (string * JsValue)) : JsValue :=
  default JUndefined (property name props).

(** [{...props, name: v}]: the property keeps its place when the object
    has it and comes last when it has not. *)
Fixpoint set_property (name : string) (v : JsValue)
    (props : list (string * JsValue)) : list (string * JsValue) :=
  match props with
  | [] => [(name, v)]
  | (k, x) :: rest =>
      if decide (k = name) then (k, v) :: rest
      else (k, x) :: set_property name v rest
  end.

(** The event the four notification functions build from a payload, each
    with its event type and the prefix of its id. [now1] and [now2] are
    the readings of [Date.now()] for the timestamp and for the id, [rnd]
    is [Math.random().toString(36).substr(2, 9)]. *)
Definition envelope (type prefix : string) (payload : list (string * JsValue))
    (now1 now2 : Z) (rnd : string) : SSEEvent :=
  mkEvent type
    (JObject
       (set_property "timestamp"
          (or_else (get "timestamp" payload) (JNum now1)) payload))
    (Some (prefix +:+ pretty now2 +:+ "_" +:+ rnd))
    None.

Definition sendUserNotification (user : string)
    (payload : list (string * JsValue)) (now1 now2 : Z) (rnd : string)
    (m : SSEManager) : SSEManager * nat :=
  sendToUser user (envelope "notification" "notification_" payload
                     now1 now2 rnd) m.

Definition sendUserSystemEvent (user : string)
    (payload : list (string * JsValue)) (now1 now2 : Z) (rnd : string)
    (m : SSEManager) : SSEManager * nat :=
  sendToUser user (envelope "system" "system_" payload now1 now2 rnd) m.

Definition broadcastNotification (payload : list (string * JsValue))
    (now1 now2 : Z) (rnd : string) (m : SSEManager) : SSEManager * nat :=
  broadcast (envelope "notification" "broadcast_" payload now1 now2 rnd) m.

Definition broadcastSystemEvent (payload : list (string * JsValue))
    (now1 now2 : Z) (rnd : string) (m : SSEManager) : SSEManager * nat :=
  broadcast (envelope "system" "broadcast_system_" payload now1 now2 rnd) m.

(** The options of a custom event: [{ id?: string; retry?: number }]. *)
Record CustomOptions : Type := mkOptions {
  opt_id : option string;
  opt_retry : option Z
}.

(** [options?.id || prefix + Date.now() + "_" + rnd] *)
Definition custom_id (prefix : string) (options : option CustomOptions)
    (now : Z) (rnd : string) : string :=
  match options with
  | Some o =>
      match opt_id o with
      | Some i => if truthy_string i then i
                  else prefix +:+ pretty now +:+ "_" +:+ rnd
      | None => prefix +:+ pretty now +:+ "_" +:+ rnd
      end
  | None => prefix +:+ pretty now +:+ "_" +:+ rnd
  end.

Definition customEvent (prefix eventType : string) (data : JsValue)
    (options : option CustomOptions) (now : Z) (rnd : string) : SSEEvent :=
  mkEvent eventType data (Some (custom_id prefix options now rnd))
    (match options with Some o => opt_retry o | None => None end).

Definition sendUserCustomEvent (user eventType : string) (data : JsValue)
    (options : option CustomOptions) (now : Z) (rnd : string)
    (m : SSEManager) : SSEManager * nat :=
  sendToUser user (customEvent "custom_" eventType data options now rnd) m.

Definition broadcastCustomEvent (eventType : string) (data : JsValue)
    (options : option CustomOptions) (now : Z) (rnd : string)
    (m : SSEManager) : SSEManager * nat :=
  broadcast (customEvent "broadcast_custom_" eventType data options now rnd) m.

(** [getSSEStats] *)
Definition getSSEStats (m : SSEManager) : Stats := getStats m.

(** The payload [{ type, message, title, data }] of the shorthands
    [notifications.success] and the like; an argument left out is a
    property with the value [undefined]. *)
Definition shorthand_payload (severity message : string)
    (title : option string) (data : option JsValue)
    : list (string * JsValue) :=
  [("type", JString severity);
   ("message", JString message);
   ("title", match title with Some t => JString t | None => JUndefined end);
   ("data", default JUndefined data)].

(** [notifications.success], [.error], [.info], [.warning], by severity. *)
Definition notify (severity user message : string) (title : option string)
    (data : option JsValue) (now1 now2 : Z) (rnd : string)
    (m : SSEManager) : SSEManager * nat :=
  sendUserNotification user (shorthand_payload severity message title data)
    now1 now2 rnd m.

(** [broadcasts.success], [.error], [.info], [.warning], by severity. *)
Definition announce (severity message : string) (title : option string)
    (data : option JsValue) (now1 now2 : Z) (rnd : string)
    (m : SSEManager) : SSEManager * nat :=
  broadcastNotification (shorthand_payload severity message title data)
    now1 now2 rnd m.

End Notifications.


(** ** The route (the [GET] handler of the SSE API route) *)

Module Route.

(** The headers of the request the handler reads. *)
Record Request : Type := mkRequest {
  user_agent : option string;
  x_forwarded_for : option string;
  x_real_ip : option string
}.

(** What the handler returns: the status, and for a stream response the
    controller of the stream that is its body, for an error response the
    JSON text. *)
Inductive Body : Type :=
  | StreamBody (r : Controller)
  | JsonBody (text : string).

Record Response : Type := mkResponse {
  status : nat;
  body : Body
}.

(** [client_${Date.now()}_${Math.random().toString(36).substr(2, 9)}] *)
Definition clientId_of (now : Z) (rnd : string) : string :=
  "client_" +:+ pretty now +:+ "_" +:+ rnd.

(** [session?.user?.id ? `session_${session.user.id}` : undefined] *)
Definition sessionId_of (user : option string) : option string :=
  match user with
  | Some u => if truthy_string u then Some ("session_" +:+ u) else None
  | None => None
  end.

(** [a ?? b] on a header that may be missing. *)
Definition or_default (a : option string) (b : string) : string :=
  default b a.

Definition metadata_of (req : Request) (now : Z) : JsValue :=
  JObject
    [("userAgent", JString (or_default (user_agent req) "unknown"));
     ("ip", JString (or_default (x_forwarded_for req)
                       (or_default (x_real_ip req) "unknown")));
     ("timestamp", JNum now)].

(** [controller.error(e)]: the stream is errored and accepts no chunk. *)
Definition error_stream (r : Controller) (h : gmap nat Stream)
    : gmap nat Stream :=
  match h !! r with
  | Some st => <[r := mkStream false (chunks st)]> h
  | None => h
  end.

(** The body of the [try] block once the session is known: the id and the
    metadata are made, a stream is created, and its [start] function,
    which the constructor of the stream calls at once, registers the
    connection; when [addClient] throws, the error is caught and handed to
    [controller.error]. The response has the status 200 in both cases.
    [user] is [session?.user?.id]; [now1] to [now4] are the readings of
    [Date.now()] for the id, the metadata and inside [addClient]. *)
Definition connect (user : option string) (req : Request)
    (now1 now2 now3 now4 : Z) (rnd : string)
    (m : SSEManager) : Response * SSEManager :=
  let clientId := clientId_of now1 rnd in
  let metadata := metadata_of req now2 in
  let r := fresh (dom (streams m)) in
  let m0 := set_streams (<[r := mkStream true []]> (streams m)) m in
  let '(outcome, m1) :=
    addClient clientId r user (sessionId_of user) (Some metadata)
      now3 now4 m0 in
  let m2 :=
    match outcome with
    | Normal _ => m1
    | Throw _ => set_streams (error_stream r (streams m1)) m1
    end in
  (mkResponse 200 (StreamBody r), m2).

(** [GET]. [session] is how [await getSession()] ends: with the user id of
    the session, if there is one, or with an error and its message. *)
Definition GET (session : Completion (option string)) (req : Request)
    (now1 now2 now3 now4 : Z) (rnd : string)
    (m : SSEManager) : Response * SSEManager :=
  match session with
  | Normal user => connect user req now1 now2 now3 now4 rnd m
  | Throw message =>
      (mkResponse 500
         (JsonBody
            (default ""
               (stringify
                  (JObject
                     [("error", JString "Failed to establish SSE connection");
                      ("message", JString message)])))),
       m)
  end.

(** The [cancel] function of the stream: the client has gone, the stream
    is closed, and the connection is removed. *)
Definition cancel (r : Controller) (clientId : string)
    (m : SSEManager) : SSEManager :=
  let h :=
    match Sink.close r (streams m) with
    | Some h' => h'
    | None => streams m
    end in
  removeClient clientId (set_streams h m).

End Route.

(** ** Records that are kept *)

(** Every record of [m'] is a record of [m] under the same id, with at most
    another [lastPing]. *)
Definition keeps_records (m m' : SSEManager) : Prop :=
  ∀ k c', clients m' !! k = Some c' →
    ∃ c, clients m !! k = Some c ∧ c' = set_lastPing (lastPing c') c.

(** Every record of [m'] is a record of [m] under the same id. *)
Definition keeps_records_as_they_are (m m' : SSEManager) : Prop :=
  ∀ k c', clients m' !! k = Some c' → clients m !! k = Some c'.

(** * Properties *)

#[local] Set Warnings "-clear-no-such-hyp".

(** ** Strings *)

Section Strings.

Lemma string_app_nil_l (s : string) : "" +:+ s = s.
Proof. reflexivity. Qed.

Lemma string_app_cons (c : ascii) (s t : string) :
  String c s +:+ t = String c (s +:+ t).
Proof. reflexivity. Qed.

Lemma string_app_nil_r (s : string) : s +:+ "" = s.
Proof.
  induction s as [|c s IH]; [reflexivity|].
  rewrite string_app_cons. by f_equal.
Qed.

Lemma string_app_assoc (s t u : string) :
  (s +:+ t) +:+ u = s +:+ (t +:+ u).
Proof.
  induction s as [|c s IH]; [reflexivity|].
  rewrite !string_app_cons. by f_equal.
Qed.

End Strings.

(** ** The frame codec *)

Section CodecFacts.

Lemma foldl_data_line (lines : list string) (message : string) :
  foldl (λ m line, m +:+ data_line line) message lines
  = message +:+ data_lines lines.
Proof.
  revert message. induction lines as [|l lines IH]; intros message; simpl.
  - by rewrite string_app_nil_r.
  - rewrite IH. apply string_app_assoc.
Qed.

Lemma data_lines_app (xs ys : list string) :
  data_lines (xs ++ ys) = data_lines xs +:+ data_lines ys.
Proof.
  induction xs as [|x xs IH]; simpl; [reflexivity|].
  rewrite IH. symmetry. apply string_app_assoc.
Qed.

(** The frame of an event whose payload serializes to [text]. *)
Lemma formatSSEMessage_text (e : SSEEvent) (text : string) :
  dataString e = Some text →
  formatSSEMessage e
  = Some (header e +:+ data_lines (split LF text) +:+ nl).
Proof.
  intros Htext. unfold formatSSEMessage. rewrite Htext.
  by rewrite foldl_data_line, string_app_assoc.
Qed.

Lemma split_nonempty (sep : ascii) (s : string) : split sep s ≠ [].
Proof.
  destruct s as [|c s]; simpl; [done|].
  destruct (decide (c = sep)); [done|]. by destruct (split sep s).
Qed.

(** No piece of a split holds the separator. *)
Lemma split_no_sep (sep : ascii) (s : string) :
  Forall (λ piece, ¬ occurs sep piece) (split sep s).
Proof.
  induction s as [|c s IH]; simpl.
  - constructor; [tauto | constructor].
  - destruct (decide (c = sep)) as [->|Hne].
    + constructor; [simpl; tauto | exact IH].
    + destruct (split sep s) as [|x xs]; simpl.
      * constructor; [simpl; intros [?|[]]; congruence | constructor].
      * inversion IH as [|? ? Hx Hxs]; subst.
        constructor; [simpl; intros [?|?]; [congruence | tauto] | exact Hxs].
Qed.

(** Joining the pieces with the separator gives the text back. *)
Lemma join_split (sep : ascii) (s : string) :
  join (String sep "") (split sep s) = s.
Proof.
  induction s as [|c s IH]; simpl; [reflexivity|].
  destruct (decide (c = sep)) as [->|Hne].
  - pose proof (split_nonempty sep s) as Hne.
    destruct (split sep s) as [|x xs]; [done|].
    change (join (String sep "") ("" :: x :: xs))
      with ("" +:+ String sep "" +:+ join (String sep "") (x :: xs)).
    rewrite IH. reflexivity.
  - pose proof (split_nonempty sep s) as Hne'.
    destruct (split sep s) as [|x xs]; [done|].
    destruct xs as [|y ys].
    + simpl in *. by f_equal.
    + change (join (String sep "") (String c x :: y :: ys))
        with (String c (x +:+ String sep "" +:+ join (String sep "") (y :: ys))).
      f_equal. exact IH.
Qed.

Lemma serializes_to_dataString (e : SSEEvent) (text : string) :
  serializes_to (ev_data e) text ↔ dataString e = Some text.
Proof.
  unfold serializes_to, dataString.
  destruct (ev_data e); split; intros H; try done; congruence.
Qed.

(** C4. The event [{type: "notification", data: {a: 1}, id: "x1"}] encodes
    to the frame [id: x1], [event: notification], [data: {"a":1}] and one
    empty line; and whatever the other fields of an event are, the payload
    string made of the lines [line1] and [line2] gives the two data lines
    [data: line1] and [data: line2], one after the other, and then the
    empty line that ends the frame. *)
Theorem frame_encoding_examples :
  formatSSEMessage
    (mkEvent "notification" (JObject [("a", JNum 1)]) (Some "x1") None)
  = Some ("id: x1" +:+ nl +:+ "event: notification" +:+ nl +:+
          "data: {" +:+ String DQUOTE "a" +:+ String DQUOTE ":1}" +:+ nl +:+ nl)
  ∧ ∀ (type : string) (i : option string) (retry : option Z),
      let e := mkEvent type (JString ("line1" +:+ nl +:+ "line2")) i retry in
      formatSSEMessage e
      = Some (header e +:+
              "data: line1" +:+ nl +:+ "data: line2" +:+ nl +:+ nl).
Proof.
  split; [reflexivity|].
  intros type i retry e.
  rewrite (formatSSEMessage_text e ("line1" +:+ nl +:+ "line2")) by reflexivity.
  reflexivity.
Qed.

(** C8 (as amended). The frame starts with the id line, the event line and
    the retry line, in that order, each of them there or left out: the id
    line is there for an id that is not the empty string and left out for
    an event with no id or the empty id; the event line is there exactly
    when the type is not the empty string; the retry line is there for a
    retry value other than 0 and left out for an event with no retry
    value. *)
Theorem header_fields (e : SSEEvent) (text : string) :
  dataString e = Some text →
  formatSSEMessage e
  = Some (id_line e +:+ event_line e +:+ retry_line e +:+
          data_lines (split LF text) +:+ nl)
  ∧ (∀ i, ev_id e = Some i → i ≠ "" → id_line e = "id: " +:+ i +:+ nl)
  ∧ (ev_id e = None ∨ ev_id e = Some "" → id_line e = "")
  ∧ (ev_type e ≠ "" → event_line e = "event: " +:+ ev_type e +:+ nl)
  ∧ (ev_type e = "" → event_line e = "")
  ∧ (∀ r, ev_retry e = Some r → r ≠ 0%Z →
          retry_line e = "retry: " +:+ pretty r +:+ nl)
  ∧ (ev_retry e = None → retry_line e = "").
Proof.
  intros Htext. split.
  { rewrite (formatSSEMessage_text e text Htext). unfold header.
    by rewrite !string_app_assoc. }
  unfold id_line, event_line, retry_line, truthy_string, truthy_number.
  split.
  { intros i -> Hi. by rewrite bool_decide_eq_false_2. }
  split.
  { intros [->| ->]; [done|]. by rewrite bool_decide_eq_true_2. }
  split.
  { intros Ht. by rewrite bool_decide_eq_false_2. }
  split.
  { intros ->. by rewrite bool_decide_eq_true_2. }
  split.
  { intros r -> Hr. by rewrite bool_decide_eq_false_2. }
  by intros ->.
Qed.

Lemma header_fields_witness :
  let e := mkEvent "progress" (JString "half") (Some "e7") (Some 1500%Z) in
  dataString e = Some "half"
  ∧ formatSSEMessage e
    = Some ("id: e7" +:+ nl +:+ "event: progress" +:+ nl +:+
            "retry: 1500" +:+ nl +:+ "data: half" +:+ nl +:+ nl).
Proof.
  split; [reflexivity|].
  rewrite (proj1 (header_fields
                    (mkEvent "progress" (JString "half") (Some "e7")
                       (Some 1500%Z)) "half" eq_refl)).
  reflexivity.
Defined.

(** C8 fails as stated: an event that carries [retry: 0] is encoded without
    a retry line, the test [if (event.retry)] being false for the number
    0. *)
Lemma retry_zero_frame :
  formatSSEMessage (mkEvent "message" (JString "x") None (Some 0%Z))
  = Some ("event: message" +:+ nl +:+ "data: x" +:+ nl +:+ nl)
  ∧ ∀ (type : string) (d : JsValue) (i : option string),
      retry_line (mkEvent type d i (Some 0%Z)) = "".
Proof. split; [reflexivity | intros; reflexivity]. Qed.

(** C9. Encoding an event whose payload is serializable never throws: the
    payload, taken as it is when it is a string and serialized as JSON
    otherwise, is split at the line feeds (the pieces hold no line feed and
    give the text back when joined by line feeds), the frame is the header
    followed by one [data: ] line per piece and one empty line, and so it
    ends with the last data line and exactly that one empty line. *)
Theorem formatSSEMessage_serializable (e : SSEEvent) (text : string) :
  serializes_to (ev_data e) text →
  dataString e = Some text
  ∧ formatSSEMessage e
    = Some (header e +:+ data_lines (split LF text) +:+ nl)
  ∧ join nl (split LF text) = text
  ∧ Forall (λ line, ¬ occurs LF line) (split LF text)
  ∧ ∃ (init : list string) (last : string),
      split LF text = (init ++ [last])%list
      ∧ formatSSEMessage e
        = Some (header e +:+ data_lines init +:+
                "data: " +:+ last +:+ nl +:+ nl).
Proof.
  intros Hser%serializes_to_dataString.
  split; [exact Hser|].
  split; [by apply formatSSEMessage_text|].
  split; [apply join_split|].
  split; [apply split_no_sep|].
  destruct (exists_last (split_nonempty LF text)) as (init & last & Hsplit).
  exists init, last. split; [exact Hsplit|].
  rewrite (formatSSEMessage_text e text Hser), Hsplit, data_lines_app.
  simpl. unfold data_line.
  by rewrite string_app_nil_r, !string_app_assoc.
Qed.

Lemma formatSSEMessage_serializable_witness :
  let e := mkEvent "update" (JArray [JNull; JNum 7]) None None in
  serializes_to (ev_data e) "[null,7]"
  ∧ formatSSEMessage e
    = Some (header e +:+ data_lines (split LF "[null,7]") +:+ nl).
Proof.
  split; [reflexivity|].
  apply (formatSSEMessage_serializable
           (mkEvent "update" (JArray [JNull; JNum 7]) None None) "[null,7]").
  reflexivity.
Defined.

End CodecFacts.

(** ** The registry: what each operation does to the maps *)

Section RegistryFacts.

Implicit Types (m : SSEManager) (clientId user : string) (event : SSEEvent).

Lemma truthy_string_true (s : string) : truthy_string s = true ↔ s ≠ "".
Proof.
  unfold truthy_string. rewrite negb_true_iff, bool_decide_eq_false. done.
Qed.

Lemma foldl_preserves {A B} (P : A → Prop) (f : A → B → A) (l : list B) a :
  (∀ a b, P a → P (f a b)) → P a → P (foldl f a l).
Proof.
  intros Hf. revert a. induction l as [|b l IH]; intros a Ha; simpl; auto.
Qed.

(** *** [removeClient] *)

Lemma removeClient_unknown clientId m :
  clients m !! clientId = None → removeClient clientId m = m.
Proof. intros H. unfold removeClient. by rewrite H. Qed.

Lemma removeClient_clients clientId m :
  clients (removeClient clientId m) = delete clientId (clients m).
Proof.
  unfold removeClient. destruct (clients m !! clientId) eqn:H; [done|].
  by rewrite delete_id.
Qed.

Lemma removeClient_config clientId m :
  config (removeClient clientId m) = config m.
Proof. unfold removeClient. by destruct (clients m !! clientId). Qed.

(** The set of a user after [removeClient]: only the set of the user the
    record names loses the id. *)
Lemma removeClient_index clientId m user :
  index (removeClient clientId m) user
  = match clients m !! clientId with
    | Some c =>
        if bool_decide (userId c = Some user ∧ user ≠ "")
        then index m user ∖ {[clientId]}
        else index m user
    | None => index m user
    end.
Proof.
  unfold removeClient, index.
  destruct (clients m !! clientId) as [c|] eqn:Hc; [|done]. simpl.
  destruct (userId c) as [u|] eqn:Hu.
  2:{ rewrite bool_decide_eq_false_2; [done | intros [? _]; done]. }
  destruct (truthy_string u) eqn:Ht.
  2:{ rewrite bool_decide_eq_false_2; [done|].
      intros [[= ->] Hne]. apply truthy_string_true in Hne. congruence. }
  apply truthy_string_true in Ht.
  destruct (decide (u = user)) as [->|Hne].
  - rewrite bool_decide_eq_true_2 by done.
    destruct (userConnections m !! user) as [s|] eqn:Hs; simpl.
    + destruct (decide (size (s ∖ {[clientId]}) = 0)) as [Hz|Hz].
      * rewrite lookup_delete_eq. simpl.
        apply size_empty_inv in Hz. symmetry. by apply leibniz_equiv.
      * by rewrite lookup_insert_eq.
    + rewrite Hs. simpl. set_solver.
  - rewrite bool_decide_eq_false_2 by (intros [[= ?] _]; done).
    destruct (userConnections m !! u) as [s|] eqn:Hs; [|done].
    destruct (decide (size (s ∖ {[clientId]}) = 0)).
    + by rewrite lookup_delete_ne.
    + by rewrite lookup_insert_ne.
Qed.

Lemma removeClient_no_empty_entry clientId m :
  no_empty_entry m → no_empty_entry (removeClient clientId m).
Proof.
  intros Hm user s. unfold removeClient.
  destruct (clients m !! clientId) as [c|]; [|apply Hm]. simpl.
  destruct (userId c) as [u|]; [|apply Hm].
  destruct (truthy_string u); [|apply Hm].
  destruct (userConnections m !! u) as [s'|] eqn:Hs'; [|apply Hm].
  destruct (decide (size (s' ∖ {[clientId]}) = 0)) as [Hz|Hz].
  - intros [_ H]%lookup_delete_Some. by apply (Hm user).
  - intros [[<- <-]|[_ H]]%lookup_insert_Some; [|by apply (Hm user)].
    intros Hempty. apply Hz. rewrite Hempty. apply size_empty.
Qed.

Lemma removeClient_index_matches clientId m :
  index_matches m → index_matches (removeClient clientId m).
Proof.
  intros Hm user k. rewrite removeClient_index. unfold registered_for.
  rewrite removeClient_clients.
  destruct (decide (k = clientId)) as [->|Hne].
  - rewrite lookup_delete_eq.
    split.
    + destruct (clients m !! clientId) as [c|] eqn:Hc.
      * case_bool_decide as Hd; [set_solver|].
        intros Hin. apply Hm in Hin as [(c' & Hc' & Hu) Hne].
        rewrite Hc in Hc'. injection Hc' as <-. tauto.
      * intros Hin. apply Hm in Hin as [(c' & Hc' & _) _]. congruence.
    + intros [(c & Hc & _) _]. done.
  - rewrite lookup_delete_ne by done.
    assert (k ∈ index m user ↔ (∃ c, clients m !! k = Some c ∧ userId c = Some user) ∧ user ≠ "")
      as <- by apply Hm.
    destruct (clients m !! clientId) as [c|]; [|done].
    case_bool_decide; set_solver.
Qed.

Lemma removeClient_invariant clientId m :
  registry_invariant m → registry_invariant (removeClient clientId m).
Proof.
  intros [H1 H2]. split;
    [by apply removeClient_index_matches | by apply removeClient_no_empty_entry].
Qed.

(** *** [sendToClient] *)

(** The connection will take the frame of the event: it is registered, the
    event can be encoded and its stream accepts chunks. *)
Lemma sendToClient_result clientId event m :
  (sendToClient clientId event m).2 = accepts m event clientId.
Proof.
  unfold sendToClient, accepts, Sink.enqueue, Sink.is_readable.
  destruct (clients m !! clientId) as [c|]; [|done].
  destruct (formatSSEMessage event) as [frame|]; [|done].
  destruct (streams m !! controller c) as [st|]; [|done].
  by destruct (readable st).
Qed.

(** The three ways [sendToClient] ends. *)
Lemma sendToClient_shape clientId event m :
  (∃ c frame h,
      clients m !! clientId = Some c
      ∧ formatSSEMessage event = Some frame
      ∧ Sink.enqueue (controller c) frame (streams m) = Some h
      ∧ sendToClient clientId event m = (set_streams h m, true))
  ∨ (clients m !! clientId = None
     ∧ sendToClient clientId event m = (m, false))
  ∨ (is_Some (clients m !! clientId)
     ∧ accepts m event clientId = false
     ∧ sendToClient clientId event m = (removeClient clientId m, false)).
Proof.
  pose proof (sendToClient_result clientId event m) as Hres.
  unfold sendToClient in *.
  destruct (clients m !! clientId) as [c|] eqn:Hc; [|right; left; done].
  destruct (formatSSEMessage event) as [frame|] eqn:Hf.
  - destruct (Sink.enqueue (controller c) frame (streams m)) as [h|] eqn:Hq.
    + left. by exists c, frame, h.
    + right; right. simpl in Hres. eauto.
  - right; right. simpl in Hres. eauto.
Qed.

Lemma sendToClient_invariant clientId event m :
  registry_invariant m → registry_invariant (sendToClient clientId event m).1.
Proof.
  intros Hm.
  destruct (sendToClient_shape clientId event m)
    as [(c & frame & h & _ & _ & _ & ->)|[[_ ->]|(_ & _ & ->)]]; simpl.
  - exact Hm.
  - exact Hm.
  - by apply removeClient_invariant.
Qed.

Lemma sendToClient_config clientId event m :
  config (sendToClient clientId event m).1 = config m.
Proof.
  destruct (sendToClient_shape clientId event m)
    as [(c & frame & h & _ & _ & _ & ->)|[[_ ->]|(_ & _ & ->)]]; simpl;
    auto using removeClient_config.
Qed.

(** A send leaves the records of the connection map as they are, and takes
    out the one it was for when it fails. *)
Lemma sendToClient_clients clientId event m :
  clients (sendToClient clientId event m).1
  = if accepts m event clientId then clients m
    else delete clientId (clients m).
Proof.
  destruct (sendToClient_shape clientId event m)
    as [(c & frame & h & Hc & Hf & Hq & Hs)|[[Hc Hs]|(_ & Ha & Hs)]].
  - rewrite <- sendToClient_result, Hs. done.
  - rewrite <- sendToClient_result, Hs. simpl. by rewrite delete_id.
  - rewrite Ha, Hs. simpl. apply removeClient_clients.
Qed.

(** The loop bodies take out of an index set no other id than the one they
    visit. *)
Lemma sendToClient_index_other clientId event m user k :
  k ≠ clientId →
  k ∈ index (sendToClient clientId event m).1 user ↔ k ∈ index m user.
Proof.
  intros Hne.
  destruct (sendToClient_shape clientId event m)
    as [(c & frame & h & _ & _ & _ & ->)|[[_ ->]|(_ & _ & ->)]]; simpl;
    [done|done|].
  rewrite removeClient_index.
  destruct (clients m !! clientId); [|done].
  case_bool_decide; set_solver.
Qed.

(** *** [addClient] *)

Lemma register_clients clientId ctrl us se me now1 m :
  clients (register clientId ctrl us se me now1 m)
  = <[clientId := mkClient clientId us se ctrl now1 me]> (clients m).
Proof.
  unfold register. destruct us as [u|]; [|done].
  by destruct (truthy_string u).
Qed.

Lemma register_config clientId ctrl us se me now1 m :
  config (register clientId ctrl us se me now1 m) = config m.
Proof.
  unfold register. destruct us as [u|]; [|done].
  by destruct (truthy_string u).
Qed.

Lemma register_streams clientId ctrl us se me now1 m :
  streams (register clientId ctrl us se me now1 m) = streams m.
Proof.
  unfold register. destruct us as [u|]; [|done].
  by destruct (truthy_string u).
Qed.

(** Only the set of the user given to [addClient] gains the id. *)
Lemma register_index clientId ctrl us se me now1 m user :
  index (register clientId ctrl us se me now1 m) user
  = if bool_decide (us = Some user ∧ user ≠ "")
    then index m user ∪ {[clientId]}
    else index m user.
Proof.
  unfold register, index. destruct us as [u|].
  2:{ rewrite bool_decide_eq_false_2; [done | intros [? _]; done]. }
  destruct (truthy_string u) eqn:Ht.
  2:{ rewrite bool_decide_eq_false_2; [done|].
      intros [Heq Hne]. injection Heq as Heq. subst u.
      apply truthy_string_true in Hne. congruence. }
  apply truthy_string_true in Ht. simpl.
  destruct (decide (u = user)) as [Heq|Hne].
  - subst u. rewrite bool_decide_eq_true_2 by done.
    rewrite lookup_alter_eq.
    destruct (userConnections m !! user) as [s|] eqn:Hs.
    + by rewrite Hs.
    + by rewrite lookup_insert_eq.
  - rewrite bool_decide_eq_false_2 by (intros [Heq _]; congruence).
    rewrite lookup_alter_ne by done.
    destruct (userConnections m !! u); [done|].
    by rewrite lookup_insert_ne.
Qed.

Lemma register_no_empty_entry clientId ctrl us se me now1 m :
  no_empty_entry m →
  no_empty_entry (register clientId ctrl us se me now1 m).
Proof.
  intros Hm user s. unfold register.
  destruct us as [u|]; [|apply Hm].
  destruct (truthy_string u); [|apply Hm]. simpl.
  destruct (decide (u = user)) as [Heq|Hne].
  - subst u. rewrite lookup_alter_eq.
    assert (∀ s0 : gset string, s0 ∪ {[clientId]} ≠ ∅) as Hne.
    { intros s0 Hs0. assert (clientId ∈ s0 ∪ {[clientId]}) as Hin by set_solver.
      rewrite Hs0 in Hin. set_solver. }
    destruct (userConnections m !! user) as [s'|] eqn:Hs';
      [rewrite Hs' | rewrite lookup_insert_eq]; cbn;
      intros Hs; injection Hs as Hs; subst s; apply Hne.
  - rewrite lookup_alter_ne by done.
    destruct (userConnections m !! u); [apply Hm|].
    rewrite lookup_insert_ne by done. apply Hm.
Qed.

Lemma register_index_matches clientId ctrl us se me now1 m :
  clients m !! clientId = None →
  index_matches m →
  index_matches (register clientId ctrl us se me now1 m).
Proof.
  intros Hfresh Hm user k. rewrite register_index. unfold registered_for.
  rewrite register_clients.
  assert (clientId ∉ index m user) as Hout.
  { intros Hin. apply Hm in Hin as [(c & Hc & _) _]. congruence. }
  destruct (decide (k = clientId)) as [Heq|Hne].
  - subst k. rewrite lookup_insert_eq. case_bool_decide as Hd.
    + split; [|set_solver]. intros _. destruct Hd as [Hu Hne].
      split; [|done]. eexists. split; [done|]. exact Hu.
    + split; [done|]. intros [(c & Hc & Hu) Hne].
      injection Hc as Hc. subst c. simpl in Hu. tauto.
  - rewrite lookup_insert_ne by done.
    assert (k ∈ index m user ↔
            (∃ c, clients m !! k = Some c ∧ userId c = Some user) ∧ user ≠ "")
      as Hiff by apply Hm.
    rewrite <- Hiff. case_bool_decide; set_solver.
Qed.

Lemma addClient_full clientId ctrl us se me now1 now2 m :
  (maxConnections (config m) ≤ size (clients m))%nat →
  addClient clientId ctrl us se me now1 now2 m
  = (Throw "Maximum connections reached", m).
Proof. intros Hfull. unfold addClient. by rewrite decide_True. Qed.

Lemma addClient_below clientId ctrl us se me now1 now2 m :
  (size (clients m) < maxConnections (config m))%nat →
  addClient clientId ctrl us se me now1 now2 m
  = (Normal (),
     (sendToClient clientId (connectionEvent clientId now2)
        (register clientId ctrl us se me now1 m)).1).
Proof. intros Hlt. unfold addClient. rewrite decide_False; [done | lia]. Qed.

Lemma addClient_invariant clientId ctrl us se me now1 now2 m :
  clients m !! clientId = None →
  registry_invariant m →
  registry_invariant (addClient clientId ctrl us se me now1 now2 m).2.
Proof.
  intros Hfresh [H1 H2]. unfold addClient.
  destruct (decide _); simpl; [by split|].
  apply sendToClient_invariant. split.
  - by apply register_index_matches.
  - by apply register_no_empty_entry.
Qed.

Lemma addClient_config clientId ctrl us se me now1 now2 m :
  config (addClient clientId ctrl us se me now1 now2 m).2 = config m.
Proof.
  unfold addClient. destruct (decide _); simpl; [done|].
  by rewrite sendToClient_config, register_config.
Qed.

(** *** The loops *)

Lemma send_count_fst event (acc : SSEManager * nat) clientId :
  (send_count event acc clientId).1 = (sendToClient clientId event acc.1).1.
Proof. unfold send_count. by destruct (sendToClient clientId event acc.1). Qed.

Lemma send_loop_invariant event ids m n :
  registry_invariant m →
  registry_invariant (foldl (send_count event) (m, n) ids).1.
Proof.
  intros Hm.
  apply (foldl_preserves (λ acc, registry_invariant acc.1)); [|done].
  intros acc k Hacc. rewrite send_count_fst. by apply sendToClient_invariant.
Qed.

Lemma send_loop_config event ids m n :
  config (foldl (send_count event) (m, n) ids).1 = config m.
Proof.
  apply (foldl_preserves (λ acc, config acc.1 = config m)); [|done].
  intros acc k Hacc. by rewrite send_count_fst, sendToClient_config.
Qed.

Lemma remove_loop_invariant ids m :
  registry_invariant m →
  registry_invariant (foldl (λ acc k, removeClient k acc) m ids).
Proof.
  apply (foldl_preserves registry_invariant).
  intros acc k. apply removeClient_invariant.
Qed.

Lemma remove_loop_config ids m :
  config (foldl (λ acc k, removeClient k acc) m ids) = config m.
Proof.
  apply (foldl_preserves (λ acc, config acc = config m)); [|done].
  intros acc k Hacc. by rewrite removeClient_config.
Qed.

Lemma ping_clients now m clientId :
  clients (ping now m clientId)
  = if accepts m (heartbeatEvent now) clientId
    then alter (set_lastPing now) clientId (clients m)
    else delete clientId (clients m).
Proof.
  unfold ping.
  pose proof (sendToClient_result clientId (heartbeatEvent now) m) as Hres.
  pose proof (sendToClient_clients clientId (heartbeatEvent now) m) as Hcl.
  destruct (sendToClient clientId (heartbeatEvent now) m) as [m' ok].
  simpl in *. subst ok.
  destruct (accepts m (heartbeatEvent now) clientId) eqn:Ha; [|done].
  rewrite Hcl. apply map_eq. intros k.
  destruct (clients m !! clientId) as [c|] eqn:Hc; simpl.
  - rewrite lookup_alter.
    destruct (decide (clientId = k)) as [Heq|Hne].
    + subst k. by rewrite lookup_insert_eq, Hc.
    + by rewrite lookup_insert_ne.
  - rewrite Hcl, lookup_alter. destruct (decide (clientId = k)) as [Heq|Hne].
    + subst k. by rewrite Hc.
    + done.
Qed.

Lemma ping_userConnections now m clientId :
  userConnections (ping now m clientId)
  = userConnections (sendToClient clientId (heartbeatEvent now) m).1.
Proof.
  unfold ping.
  destruct (sendToClient clientId (heartbeatEvent now) m) as [m' ok].
  destruct ok; [|done]. simpl. by destruct (clients m' !! clientId).
Qed.

Lemma ping_config now m clientId : config (ping now m clientId) = config m.
Proof.
  unfold ping.
  pose proof (sendToClient_config clientId (heartbeatEvent now) m) as Hcfg.
  destruct (sendToClient clientId (heartbeatEvent now) m) as [m' ok].
  destruct ok; [|done]. simpl in *. by destruct (clients m' !! clientId).
Qed.

Lemma ping_invariant now m clientId :
  registry_invariant m → registry_invariant (ping now m clientId).
Proof.
  intros Hm.
  pose proof (sendToClient_invariant clientId (heartbeatEvent now) m Hm)
    as [H1 H2].
  pose proof (ping_userConnections now m clientId) as Huc.
  pose proof (ping_clients now m clientId) as Hcl.
  pose proof (sendToClient_clients clientId (heartbeatEvent now) m) as Hcl'.
  split.
  - intros user k. unfold index, registered_for. rewrite Huc.
    assert (k ∈ index (sendToClient clientId (heartbeatEvent now) m).1 user
            ↔ (∃ c, clients (sendToClient clientId (heartbeatEvent now) m).1 !! k
                    = Some c ∧ userId c = Some user) ∧ user ≠ "")
      as Hiff by apply H1.
    unfold index in Hiff. rewrite Hiff, Hcl, Hcl'.
    destruct (accepts m (heartbeatEvent now) clientId); [|done].
    rewrite lookup_alter. destruct (decide (clientId = k)) as [Heq|Hne]; [|done].
    subst k. destruct (clients m !! clientId) as [c|]; simpl; [|naive_solver].
    split; intros [(c' & Hc' & Hu) Hne]; (split; [|done]).
    + injection Hc' as Hc'. subst c'. by exists (set_lastPing now c).
    + injection Hc' as Hc'. subst c'. by exists c.
  - intros user s. rewrite Huc. apply H2.
Qed.

Lemma sendToUser_invariant user event m :
  registry_invariant m → registry_invariant (sendToUser user event m).1.
Proof.
  intros Hm. unfold sendToUser.
  destruct (userConnections m !! user) as [s|]; [|done].
  destruct (decide (size s = 0)); [done|]. by apply send_loop_invariant.
Qed.

Lemma sendToUser_config user event m :
  config (sendToUser user event m).1 = config m.
Proof.
  unfold sendToUser.
  destruct (userConnections m !! user) as [s|]; [|done].
  destruct (decide (size s = 0)); [done|]. by apply send_loop_config.
Qed.

Lemma heartbeat_invariant now m :
  registry_invariant m → registry_invariant (heartbeat now m).
Proof.
  intros Hm. unfold heartbeat.
  apply (foldl_preserves registry_invariant).
  - intros acc k. apply ping_invariant.
  - by apply remove_loop_invariant.
Qed.

Lemma heartbeat_config now m : config (heartbeat now m) = config m.
Proof.
  unfold heartbeat.
  apply (foldl_preserves (λ acc, config acc = config m)).
  - intros acc k Hacc. by rewrite ping_config.
  - apply remove_loop_config.
Qed.

Lemma destroy_invariant m : registry_invariant m → registry_invariant (destroy m).
Proof.
  intros Hm. unfold destroy. apply remove_loop_invariant.
  by destruct (heartbeatTimer m).
Qed.

Lemma destroy_config m : config (destroy m) = config m.
Proof.
  unfold destroy. rewrite remove_loop_config. by destruct (heartbeatTimer m).
Qed.

(** *** Runs *)

Lemma step_config st m : config (step st m) = config m.
Proof.
  destruct st; simpl.
  - apply addClient_config.
  - apply removeClient_config.
  - apply sendToClient_config.
  - apply sendToUser_config.
  - apply send_loop_config.
  - destruct (heartbeatTimer m); [apply heartbeat_config | done].
  - apply destroy_config.
  - by destruct (streams m !! r).
  - by destruct (Sink.close r (streams m)).
Qed.

Lemma step_invariant st m :
  match st with
  | CallAddClient clientId _ _ _ _ _ _ => clients m !! clientId = None
  | _ => True
  end →
  registry_invariant m → registry_invariant (step st m).
Proof.
  intros Hfresh Hm. destruct st; simpl.
  - by apply addClient_invariant.
  - by apply removeClient_invariant.
  - by apply sendToClient_invariant.
  - by apply sendToUser_invariant.
  - by apply send_loop_invariant.
  - destruct (heartbeatTimer m); [by apply heartbeat_invariant | done].
  - by apply destroy_invariant.
  - by destruct (streams m !! r).
  - by destruct (Sink.close r (streams m)).
Qed.

Lemma run_invariant steps m :
  fresh_ids steps m → registry_invariant m → registry_invariant (run steps m).
Proof.
  revert m. induction steps as [|st steps IH]; intros m Hfresh Hm; [done|].
  destruct Hfresh as [Hst Hrest].
  change (run (st :: steps) m) with (run steps (step st m)).
  apply IH; [exact Hrest|]. by apply step_invariant.
Qed.

Lemma newSSEManager_invariant cfg h : registry_invariant (newSSEManager cfg h).
Proof.
  split.
  - intros user k. unfold index, registered_for. simpl.
    rewrite lookup_empty. simpl. split; [set_solver|].
    intros [(c & Hc & _) _]. by rewrite lookup_empty in Hc.
  - intros user s. simpl. by rewrite lookup_empty.
Qed.

(** *** The connection count *)

Lemma removeClient_size clientId m :
  (size (clients (removeClient clientId m)) ≤ size (clients m))%nat.
Proof.
  rewrite removeClient_clients, map_size_delete.
  destruct (clients m !! clientId); simpl; lia.
Qed.

Lemma sendToClient_size clientId event m :
  (size (clients (sendToClient clientId event m).1) ≤ size (clients m))%nat.
Proof.
  rewrite sendToClient_clients.
  destruct (accepts m event clientId); [done|].
  rewrite map_size_delete. destruct (clients m !! clientId); simpl; lia.
Qed.

Lemma ping_size now m clientId :
  (size (clients (ping now m clientId)) ≤ size (clients m))%nat.
Proof.
  rewrite ping_clients.
  destruct (accepts m (heartbeatEvent now) clientId).
  - apply Nat.eq_le_incl. rewrite <- !size_dom. f_equal. apply dom_alter_L.
  - rewrite map_size_delete. destruct (clients m !! clientId); simpl; lia.
Qed.

Lemma send_loop_size event ids m n :
  (size (clients (foldl (send_count event) (m, n) ids).1) ≤ size (clients m))%nat.
Proof.
  apply (foldl_preserves
           (λ acc, (size (clients acc.1) ≤ size (clients m))%nat)); [|done].
  intros acc k Hacc. rewrite send_count_fst.
  etrans; [apply sendToClient_size | exact Hacc].
Qed.

Lemma remove_loop_size ids m :
  (size (clients (foldl (λ acc k, removeClient k acc) m ids))
   ≤ size (clients m))%nat.
Proof.
  apply (foldl_preserves
           (λ acc, (size (clients acc) ≤ size (clients m))%nat)); [|done].
  intros acc k Hacc. etrans; [apply removeClient_size | exact Hacc].
Qed.

Lemma heartbeat_size now m :
  (size (clients (heartbeat now m)) ≤ size (clients m))%nat.
Proof.
  unfold heartbeat.
  apply (foldl_preserves
           (λ acc, (size (clients acc) ≤ size (clients m))%nat)).
  - intros acc k Hacc. etrans; [apply ping_size | exact Hacc].
  - apply remove_loop_size.
Qed.

Lemma addClient_size clientId ctrl us se me now1 now2 m :
  (size (clients m) ≤ maxConnections (config m))%nat →
  (size (clients (addClient clientId ctrl us se me now1 now2 m).2)
   ≤ maxConnections (config m))%nat.
Proof.
  intros Hm. unfold addClient.
  destruct (decide _) as [Hfull|Hroom]; simpl; [done|].
  etrans; [apply sendToClient_size|].
  rewrite register_clients, map_size_insert.
  destruct (clients m !! clientId); simpl; lia.
Qed.

(** The count of connections is within the cap. *)
Lemma step_within_cap st m :
  (size (clients m) ≤ maxConnections (config m))%nat →
  (size (clients (step st m)) ≤ maxConnections (config (step st m)))%nat.
Proof.
  intros Hm. rewrite step_config. destruct st; simpl.
  - by apply addClient_size.
  - etrans; [apply removeClient_size | done].
  - etrans; [apply sendToClient_size | done].
  - unfold sendToUser. destruct (userConnections m !! user) as [s|]; [|done].
    destruct (decide (size s = 0)); [done|].
    etrans; [apply send_loop_size | done].
  - etrans; [apply send_loop_size | done].
  - destruct (heartbeatTimer m); [|done].
    etrans; [apply heartbeat_size | done].
  - unfold destroy. etrans; [apply remove_loop_size|].
    by destruct (heartbeatTimer m).
  - by destruct (streams m !! r).
  - by destruct (Sink.close r (streams m)).
Qed.

Lemma run_config steps m : config (run steps m) = config m.
Proof.
  revert m. induction steps as [|st steps IH]; intros m; [done|].
  change (run (st :: steps) m) with (run steps (step st m)).
  by rewrite IH, step_config.
Qed.

Lemma run_within_cap steps m :
  (size (clients m) ≤ maxConnections (config m))%nat →
  (size (clients (run steps m)) ≤ maxConnections (config m))%nat.
Proof.
  revert m. induction steps as [|st steps IH]; intros m Hm; [done|].
  change (run (st :: steps) m) with (run steps (step st m)).
  rewrite <- (step_config st m). apply IH. by apply step_within_cap.
Qed.

(** *** The streams *)

Lemma enqueue_readable r chunk (h h' : gmap nat Stream) r' :
  Sink.enqueue r chunk h = Some h' →
  Sink.is_readable h' r' = Sink.is_readable h r'.
Proof.
  unfold Sink.enqueue, Sink.is_readable.
  destruct (h !! r) as [st|] eqn:Hst; [|done].
  destruct (readable st) eqn:Hr; [|done].
  intros Heq. injection Heq as Heq. subst h'.
  destruct (decide (r = r')) as [Hrr|Hrr].
  - subst r'. by rewrite lookup_insert_eq, Hst.
  - by rewrite lookup_insert_ne.
Qed.

Lemma enqueue_written r chunk (h h' : gmap nat Stream) r' :
  Sink.enqueue r chunk h = Some h' →
  Sink.written h' r'
  = (Sink.written h r' ++ if decide (r = r') then [chunk] else [])%list.
Proof.
  unfold Sink.enqueue, Sink.written.
  destruct (h !! r) as [st|] eqn:Hst; [|done].
  destruct (readable st) eqn:Hr; [|done].
  intros Heq. injection Heq as Heq. subst h'.
  destruct (decide (r = r')) as [Hrr|Hrr].
  - subst r'. by rewrite lookup_insert_eq, Hst.
  - rewrite lookup_insert_ne by done. by rewrite app_nil_r.
Qed.

Lemma close_None r (h : gmap nat Stream) :
  Sink.close r h = None ↔ Sink.is_readable h r = false.
Proof.
  unfold Sink.close, Sink.is_readable.
  destruct (h !! r) as [st|]; [destruct (readable st)|]; split; done.
Qed.

Lemma accepts_Some m event clientId c :
  clients m !! clientId = Some c →
  is_Some (formatSSEMessage event) →
  accepts m event clientId = Sink.is_readable (streams m) (controller c).
Proof. intros Hc [frame Hf]. unfold accepts. by rewrite Hc, Hf. Qed.

(** A failed send closes no stream that was readable, unless the event
    itself could not be encoded. *)
Lemma removeClient_streams_fails clientId event m :
  is_Some (formatSSEMessage event) →
  fails m event clientId →
  streams (removeClient clientId m) = streams m.
Proof.
  intros Hf [[c Hc] Ha]. rewrite (accepts_Some _ _ _ c Hc Hf) in Ha.
  unfold removeClient. rewrite Hc. simpl.
  apply close_None in Ha. by rewrite Ha.
Qed.

Lemma sendToClient_readable clientId event m r :
  is_Some (formatSSEMessage event) →
  Sink.is_readable (streams (sendToClient clientId event m).1) r
  = Sink.is_readable (streams m) r.
Proof.
  intros Hf.
  destruct (sendToClient_shape clientId event m)
    as [(c & frame & h & Hc & _ & Hq & ->)|[[_ ->]|(Hc & Ha & ->)]]; simpl.
  - by apply (enqueue_readable _ _ _ _ _ Hq).
  - done.
  - by rewrite (removeClient_streams_fails clientId event m).
Qed.

Lemma sendToClient_written clientId event m frame r :
  formatSSEMessage event = Some frame →
  Sink.written (streams (sendToClient clientId event m).1) r
  = (Sink.written (streams m) r
     ++ if decide (takes_on m event r clientId) then [frame] else [])%list.
Proof.
  intros Hf. unfold takes_on, controller_of.
  destruct (sendToClient_shape clientId event m)
    as [(c & frame' & h & Hc & Hf' & Hq & Hs)|[[Hc ->]|(Hc & Ha & ->)]]; simpl.
  - rewrite <- sendToClient_result, Hs, Hc. simpl.
    rewrite (enqueue_written _ _ _ _ _ Hq).
    assert (frame' = frame) as -> by congruence.
    destruct (decide (controller c = r)) as [Hr|Hr].
    + rewrite decide_True; [done | by subst r].
    + rewrite decide_False; [done|]. intros [_ Heq]. congruence.
  - rewrite decide_False, app_nil_r; [done|]. rewrite Hc. intros [_ ?]. done.
  - rewrite decide_False, app_nil_r by (intros [? _]; congruence).
    by rewrite (removeClient_streams_fails clientId event m).
Qed.

(** Whether another connection takes the frame is not changed by a send. *)
Lemma sendToClient_accepts_other clientId event m k :
  k ≠ clientId →
  accepts (sendToClient clientId event m).1 event k = accepts m event k.
Proof.
  intros Hne. unfold accepts.
  rewrite sendToClient_clients.
  assert ((if accepts m event clientId then clients m
           else delete clientId (clients m)) !! k = clients m !! k) as ->.
  { destruct (accepts m event clientId); [done|]. by rewrite lookup_delete_ne. }
  destruct (clients m !! k) as [c|]; [|done].
  destruct (formatSSEMessage event) as [frame|] eqn:Hf; [|done].
  apply sendToClient_readable. by rewrite Hf.
Qed.

End RegistryFacts.

(** ** The loops that send one event to many connections

    [sendToUser], [broadcast] and the heartbeat walk over a list of ids and
    send the same event to each; the heartbeat also refreshes the record of
    a connection that took the frame. The facts on such a loop are proved
    once, for any loop body of that kind. *)

Section SendLoop.

Variable event : SSEEvent.
Variable body : SSEManager → string → SSEManager.
Variable touch : SSEClient → SSEClient.

Hypothesis body_clients : ∀ m k,
  clients (body m k)
  = if accepts m event k then alter touch k (clients m)
    else delete k (clients m).
Hypothesis body_streams : ∀ m k,
  streams (body m k) = streams (sendToClient k event m).1.

Lemma filter_iff_in {A} (P1 P2 : A → Prop)
    `{!∀ x, Decision (P1 x), !∀ x, Decision (P2 x)} (l : list A) :
  (∀ x, x ∈ l → P1 x ↔ P2 x) → filter P1 l = filter P2 l.
Proof.
  induction l as [|a l IH]; intros Hiff; [done|].
  assert (filter P1 l = filter P2 l) as Htl.
  { apply IH. intros x Hx. apply Hiff. by right. }
  destruct (decide (P1 a)) as [Ha|Ha].
  - rewrite !filter_cons_True; [by rewrite Htl | | done].
    apply Hiff; [left|done].
  - rewrite !filter_cons_False; [done | | done].
    intros Ha'. apply Ha. apply Hiff; [left|done].
Qed.

Lemma body_lookup_other m k k' :
  k' ≠ k → clients (body m k) !! k' = clients m !! k'.
Proof.
  intros Hne. rewrite body_clients. destruct (accepts m event k).
  - by rewrite lookup_alter_ne.
  - by rewrite lookup_delete_ne.
Qed.

Lemma body_accepts_other m k k' :
  k' ≠ k → accepts (body m k) event k' = accepts m event k'.
Proof.
  intros Hne. unfold accepts. rewrite body_lookup_other by done.
  destruct (clients m !! k') as [c|]; [|done].
  destruct (formatSSEMessage event) as [frame|] eqn:Hf; [|done].
  rewrite body_streams. apply sendToClient_readable. by rewrite Hf.
Qed.

Lemma body_takes_on_other m k k' r :
  k' ≠ k → takes_on (body m k) event r k' ↔ takes_on m event r k'.
Proof.
  intros Hne. unfold takes_on, controller_of.
  by rewrite body_accepts_other, body_lookup_other.
Qed.

Lemma body_fails_other m k k' :
  k' ≠ k → fails (body m k) event k' ↔ fails m event k'.
Proof.
  intros Hne. unfold fails.
  by rewrite body_accepts_other, body_lookup_other.
Qed.

(** The records after the loop: a visited connection that took the frame
    is refreshed, one that did not is gone, the others are untouched. *)
Lemma loop_clients (ids : list string) m k :
  NoDup ids →
  clients (foldl body m ids) !! k
  = if decide (k ∈ ids)
    then (if accepts m event k then touch <$> clients m !! k else None)
    else clients m !! k.
Proof.
  revert m. induction ids as [|a ids IH]; intros m Hnd.
  - destruct (decide (k ∈ [])) as [Hin|_]; [|done].
    by apply elem_of_nil in Hin.
  - change (foldl body m (a :: ids)) with (foldl body (body m a) ids).
    apply NoDup_cons in Hnd as [Ha Hnd]. rewrite (IH _ Hnd).
    destruct (decide (k = a)) as [Heq|Hne].
    + subst k. rewrite decide_False by done.
      rewrite decide_True by left. rewrite body_clients.
      destruct (accepts m event a).
      * apply lookup_alter_eq.
      * apply lookup_delete_eq.
    + rewrite body_accepts_other, body_lookup_other by done.
      destruct (decide (k ∈ ids)) as [Hin|Hout].
      * rewrite decide_True; [done | by right].
      * rewrite decide_False; [done|].
        intros Hin. apply elem_of_cons in Hin as [?|?]; done.
Qed.

(** Each stream gains one copy of the frame per connection that took it. *)
Lemma loop_written (ids : list string) m frame r :
  formatSSEMessage event = Some frame →
  NoDup ids →
  Sink.written (streams (foldl body m ids)) r
  = (Sink.written (streams m) r
     ++ replicate (takers m event r ids) frame)%list.
Proof.
  intros Hf. revert m.
  induction ids as [|a ids IH]; intros m Hnd; simpl.
  - by rewrite app_nil_r.
  - apply NoDup_cons in Hnd as [Ha Hnd]. rewrite (IH _ Hnd).
    rewrite body_streams, (sendToClient_written a event m frame r Hf).
    rewrite <- app_assoc. f_equal. unfold takers.
    rewrite (filter_iff_in (takes_on (body m a) event r)
               (takes_on m event r) ids).
    2:{ intros x Hx. apply body_takes_on_other. intros ->. done. }
    rewrite filter_cons. by destruct (decide (takes_on m event r a)).
Qed.

(** The loop closes no stream, as long as the event can be encoded. *)
Lemma loop_readable (ids : list string) m r :
  is_Some (formatSSEMessage event) →
  Sink.is_readable (streams (foldl body m ids)) r
  = Sink.is_readable (streams m) r.
Proof.
  intros Hf. revert m. induction ids as [|a ids IH]; intros m; simpl; [done|].
  by rewrite IH, body_streams, sendToClient_readable.
Qed.

(** The connection count drops by one for each failed send. *)
Lemma loop_size (ids : list string) m :
  NoDup ids →
  size (clients (foldl body m ids)) + length (filter (fails m event) ids)
  = size (clients m).
Proof.
  revert m. induction ids as [|a ids IH]; intros m Hnd; simpl; [lia|].
  apply NoDup_cons in Hnd as [Ha Hnd].
  pose proof (IH (body m a) Hnd) as Hrec.
  rewrite (filter_iff_in (fails (body m a) event) (fails m event) ids) in Hrec.
  2:{ intros x Hx. apply body_fails_other. intros ->. done. }
  rewrite filter_cons. rewrite body_clients in Hrec.
  destruct (decide (fails m event a)) as [[[c Hc] Hacc]|Hnf].
  - rewrite Hacc, map_size_delete, Hc in Hrec. simpl in *.
    assert (size (clients m) ≠ 0).
    { apply map_size_ne_0_lookup. eauto. }
    lia.
  - destruct (accepts m event a) eqn:Hacc.
    + rewrite Hrec, <- !size_dom. f_equal. apply dom_alter_L.
    + destruct (clients m !! a) as [c|] eqn:Hc.
      * exfalso. apply Hnf. split; [by eexists | done].
      * by rewrite map_size_delete, Hc in Hrec.
Qed.

End SendLoop.

(** ** [sendToUser], [broadcast] and the heartbeat as instances *)

Section Delivery.

Implicit Types (m : SSEManager) (clientId user : string) (event : SSEEvent).

Lemma send_to_clients event m k :
  clients (send_to event m k)
  = if accepts m event k then alter (λ c, c) k (clients m)
    else delete k (clients m).
Proof.
  unfold send_to. rewrite sendToClient_clients.
  destruct (accepts m event k); [|done].
  symmetry. by apply alter_id.
Qed.

Lemma send_to_streams event m k :
  streams (send_to event m k) = streams (sendToClient k event m).1.
Proof. reflexivity. Qed.

Lemma ping_streams now m k :
  streams (ping now m k) = streams (sendToClient k (heartbeatEvent now) m).1.
Proof.
  unfold ping.
  destruct (sendToClient k (heartbeatEvent now) m) as [m' ok].
  destruct ok; [|done]. simpl. by destruct (clients m' !! k).
Qed.

(** The counting loop is the plain loop, and the count is the number of
    connections that took the frame. *)
Lemma send_count_loop event (ids : list string) m n :
  NoDup ids →
  foldl (send_count event) (m, n) ids
  = (foldl (send_to event) m ids,
     n + length (filter (λ k, accepts m event k = true) ids)).
Proof.
  revert m n. induction ids as [|a ids IH]; intros m n Hnd.
  - simpl. f_equal. lia.
  - apply NoDup_cons in Hnd as [Ha Hnd].
    change (foldl (send_count event) (m, n) (a :: ids))
      with (foldl (send_count event) (send_count event (m, n) a) ids).
    change (foldl (send_to event) m (a :: ids))
      with (foldl (send_to event) (send_to event m a) ids).
    assert (send_count event (m, n) a
            = (send_to event m a, if accepts m event a then S n else n))
      as ->.
    { unfold send_count, send_to. rewrite <- sendToClient_result. simpl.
      by destruct (sendToClient a event m). }
    rewrite (IH _ _ Hnd). f_equal.
    rewrite (filter_iff_in (λ k, accepts (send_to event m a) event k = true)
               (λ k, accepts m event k = true) ids).
    2:{ intros x Hx. unfold send_to.
        rewrite sendToClient_accepts_other; [done | intros ->; done]. }
    rewrite filter_cons.
    destruct (accepts m event a); simpl; lia.
Qed.

Lemma sendToUser_loop user event m :
  sendToUser user event m
  = (foldl (send_to event) m (elements (index m user)),
     length (filter (λ k, accepts m event k = true)
               (elements (index m user)))).
Proof.
  unfold sendToUser, index.
  destruct (userConnections m !! user) as [s|]; simpl.
  - destruct (decide (size s = 0)) as [Hz|Hz].
    + apply size_empty_inv, leibniz_equiv in Hz. subst s.
      by rewrite elements_empty.
    + by rewrite (send_count_loop event (elements s) m 0 (NoDup_elements s)).
  - by rewrite elements_empty.
Qed.

Lemma elem_of_keys m k : k ∈ keys m ↔ is_Some (clients m !! k).
Proof.
  unfold keys. rewrite list_elem_of_fmap. split.
  - intros ([k' c] & -> & Hin). apply elem_of_map_to_list in Hin. by eexists.
  - intros [c Hc]. exists (k, c). split; [done|].
    by apply elem_of_map_to_list.
Qed.

Lemma NoDup_keys m : NoDup (keys m).
Proof. apply NoDup_fst_map_to_list. Qed.

Lemma broadcast_loop event m :
  broadcast event m
  = (foldl (send_to event) m (keys m),
     length (filter (λ k, accepts m event k = true) (keys m))).
Proof.
  unfold broadcast.
  by rewrite (send_count_loop event (keys m) m 0 (NoDup_keys m)).
Qed.

(** *** The reaper *)

Lemma elem_of_deadClients now m k :
  k ∈ deadClients now m
  ↔ ∃ c, clients m !! k = Some c ∧ is_dead now (config m) c = true.
Proof.
  unfold deadClients. rewrite list_elem_of_fmap. split.
  - intros ([k' c] & -> & Hin). apply list_elem_of_filter in Hin as [Hd Hin].
    apply elem_of_map_to_list in Hin. by exists c.
  - intros (c & Hc & Hd). exists (k, c). split; [done|].
    apply list_elem_of_filter. split; [done|]. by apply elem_of_map_to_list.
Qed.

Lemma remove_loop_clients (ids : list string) m k :
  clients (foldl (λ acc x, removeClient x acc) m ids) !! k
  = if decide (k ∈ ids) then None else clients m !! k.
Proof.
  revert m. induction ids as [|a ids IH]; intros m.
  - destruct (decide (k ∈ [])) as [Hin|_]; [|done].
    by apply elem_of_nil in Hin.
  - change (foldl (λ acc x, removeClient x acc) m (a :: ids))
      with (foldl (λ acc x, removeClient x acc) (removeClient a m) ids).
    rewrite IH, removeClient_clients.
    destruct (decide (k = a)) as [Heq|Hne].
    + subst k. rewrite lookup_delete_eq.
      rewrite (decide_True (P := a ∈ a :: ids)) by left.
      by destruct (decide (a ∈ ids)).
    + rewrite lookup_delete_ne by done.
      destruct (decide (k ∈ ids)) as [Hin|Hout].
      * rewrite decide_True; [done | by right].
      * rewrite decide_False; [done|].
        intros Hin. apply elem_of_cons in Hin as [?|?]; done.
Qed.

(** The reaper leaves the records of the connections that are not stale,
    and only them. *)
Lemma reap_clients now m k :
  clients (reap now m) !! k
  = match clients m !! k with
    | Some c => if is_dead now (config m) c then None else Some c
    | None => None
    end.
Proof.
  unfold reap. rewrite remove_loop_clients.
  destruct (decide (k ∈ deadClients now m)) as [Hin|Hout].
  - apply elem_of_deadClients in Hin as (c & Hc & Hd). by rewrite Hc, Hd.
  - destruct (clients m !! k) as [c|] eqn:Hc; [|done].
    destruct (is_dead now (config m) c) eqn:Hd; [|done].
    exfalso. apply Hout. apply elem_of_deadClients. by exists c.
Qed.

End Delivery.

(** ** The properties the specification states *)

Section Registry.

Implicit Types (m : SSEManager) (clientId user : string) (event : SSEEvent).

Lemma connectionEvent_encodes clientId now :
  is_Some (formatSSEMessage (connectionEvent clientId now)).
Proof.
  unfold formatSSEMessage.
  destruct (dataString (connectionEvent clientId now)) eqn:Hd; [by eexists|].
  discriminate Hd.
Qed.

Lemma heartbeatEvent_encodes now :
  is_Some (formatSSEMessage (heartbeatEvent now)).
Proof.
  unfold formatSSEMessage.
  destruct (dataString (heartbeatEvent now)) eqn:Hd; [by eexists|].
  discriminate Hd.
Qed.

Lemma register_accepts clientId ctrl us se me now1 now2 m :
  accepts (register clientId ctrl us se me now1 m)
    (connectionEvent clientId now2) clientId
  = Sink.is_readable (streams m) ctrl.
Proof.
  rewrite (accepts_Some _ _ _ (mkClient clientId us se ctrl now1 me)).
  - by rewrite register_streams.
  - by rewrite register_clients, lookup_insert_eq.
  - apply connectionEvent_encodes.
Qed.

(** C1 (as amended). In every state a run reaches from a new registry, when
    no [addClient] of the run names an id that is registered at the time:
    an id is in the index set of a user exactly when the connection map
    holds the id with that user id and the user id is not the empty string;
    and the index maps no user to the empty set. *)
Theorem registry_invariant_of_runs (cfg : SSEManagerConfig)
    (h : gmap nat Stream) (steps : list Step) :
  fresh_ids steps (newSSEManager cfg h) →
  let m := run steps (newSSEManager cfg h) in
  (∀ user clientId,
      clientId ∈ index m user ↔ registered_for m clientId user ∧ user ≠ "")
  ∧ (∀ user s, userConnections m !! user = Some s → s ≠ ∅).
Proof.
  intros Hfresh. apply (run_invariant steps _ Hfresh).
  apply newSSEManager_invariant.
Qed.

Lemma registry_invariant_of_runs_witness :
  fresh_ids (Example.setup ++ [CallRemoveClient "c1"; TimerFires 70000])
    Example.fresh
  ∧ registry_invariant
      (run (Example.setup ++ [CallRemoveClient "c1"; TimerFires 70000])
         Example.fresh).
Proof.
  assert (fresh_ids
            (Example.setup ++ [CallRemoveClient "c1"; TimerFires 70000])
            Example.fresh) as Hfresh.
  { vm_compute. tauto. }
  split; [exact Hfresh|].
  exact (registry_invariant_of_runs defaultConfig Example.open_streams
           _ Hfresh).
Defined.

(** C1 fails as stated: a connection registered with the empty string for
    user id is in the connection map with that user id and in no index
    set. *)
Lemma empty_user_id_not_indexed :
  let steps := [CallAddClient "c1" 1 (Some "") None None 5 6] in
  let m := run steps Example.fresh in
  fresh_ids steps Example.fresh
  ∧ ¬ ("c1" ∈ index m "" ↔ registered_for m "c1" "").
Proof.
  split; [vm_compute; tauto|].
  intros [_ Hback].
  assert (bool_decide
            ("c1" ∈ index
               (run [CallAddClient "c1" 1 (Some "") None None 5 6]
                  Example.fresh) "") = false) as Hout
    by (vm_compute; reflexivity).
  apply bool_decide_eq_false in Hout. apply Hout, Hback.
  eexists. split; vm_compute; reflexivity.
Qed.

(** C2. [addClient] on a registry that holds as many connections as the
    cap allows, or more, throws the capacity error and leaves the whole
    state as it was; and after any run from a new registry the number of
    connections is at most the cap. *)
Theorem capacity_is_enforced :
  (∀ clientId ctrl us se me now1 now2 m,
      (maxConnections (config m) ≤ size (clients m))%nat →
      addClient clientId ctrl us se me now1 now2 m
      = (Throw "Maximum connections reached", m))
  ∧ (∀ steps cfg h,
        (totalConnections (getStats (run steps (newSSEManager cfg h)))
         ≤ maxConnections cfg)%nat).
Proof.
  split.
  - intros. by apply addClient_full.
  - intros steps cfg h. simpl.
    apply (run_within_cap steps (newSSEManager cfg h)). simpl.
    rewrite map_size_empty. lia.
Qed.

Lemma capacity_is_enforced_witness :
  (maxConnections (config Example.full) ≤ size (clients Example.full))%nat
  ∧ addClient "c2" 2 (Some "u2") None None 7 8 Example.full
    = (Throw "Maximum connections reached", Example.full).
Proof.
  assert (maxConnections (config Example.full)
          ≤ size (clients Example.full))%nat as Hfull.
  { vm_compute. lia. }
  split; [exact Hfull|].
  exact (proj1 capacity_is_enforced "c2" 2 (Some "u2") None None 7%Z 8%Z
           Example.full Hfull).
Defined.

(** C3. [sendToUser] returns the number of the connections the index
    lists for the user that took the frame. A listed connection that did
    not take it is gone from the connection map afterwards, one that took
    it keeps its record, and the connections the walk does not visit keep
    theirs; each stream has gained one copy of the frame per connection
    that took it on that stream; the number of connections [getStats]
    reports has dropped by one per registered connection whose send
    failed; the index still matches the connection map when it did before,
    so the evicted connections are gone from it too; and with no
    connection listed for the user the call returns 0 and the state as it
    was. *)
Theorem sendToUser_delivery (user : string) (event : SSEEvent)
    (m : SSEManager) :
  let ids := elements (index m user) in
  let m' := (sendToUser user event m).1 in
  (sendToUser user event m).2
  = length (filter (λ k, accepts m event k = true) ids)
  ∧ (∀ k, k ∈ index m user → accepts m event k = false →
          clients m' !! k = None)
  ∧ (∀ k, k ∈ index m user → accepts m event k = true →
          clients m' !! k = clients m !! k)
  ∧ (∀ k, k ∉ index m user → clients m' !! k = clients m !! k)
  ∧ (∀ frame r, formatSSEMessage event = Some frame →
        Sink.written (streams m') r
        = (Sink.written (streams m) r
           ++ replicate (takers m event r ids) frame)%list)
  ∧ totalConnections (getStats m') + length (filter (fails m event) ids)
    = totalConnections (getStats m)
  ∧ (registry_invariant m → registry_invariant m')
  ∧ (index m user = ∅ → sendToUser user event m = (m, 0)).
Proof.
  intros ids m'. unfold m'. rewrite sendToUser_loop. fold ids. simpl.
  pose proof (NoDup_elements (index m user)) as Hnd. fold ids in Hnd.
  pose proof (loop_clients event (send_to event) (λ c, c)
                (send_to_clients event) (send_to_streams event) ids m)
    as Hcl.
  assert (∀ k, k ∈ index m user ↔ k ∈ ids) as Hids.
  { intros k. unfold ids. by rewrite elem_of_elements. }
  split; [done|].
  split.
  { intros k Hk Ha. rewrite (Hcl k Hnd), decide_True by by apply Hids.
    by rewrite Ha. }
  split.
  { intros k Hk Ha. rewrite (Hcl k Hnd), decide_True by by apply Hids.
    rewrite Ha. by destruct (clients m !! k). }
  split.
  { intros k Hk. rewrite (Hcl k Hnd), decide_False; [done|].
    intros Hin. by apply Hk, Hids. }
  split.
  { intros frame r Hf.
    by apply (loop_written event (send_to event) (λ c, c)
                (send_to_clients event) (send_to_streams event)). }
  split.
  { by apply (loop_size event (send_to event) (λ c, c)
                (send_to_clients event) (send_to_streams event)). }
  split.
  { intros Hm. pose proof (sendToUser_invariant user event m Hm) as Hinv.
    by rewrite sendToUser_loop in Hinv. }
  intros Hempty. unfold ids. rewrite Hempty, elements_empty. done.
Qed.

Lemma sendToUser_delivery_witness :
  (sendToUser "u1" Example.note Example.busy).2 = 1
  ∧ clients (sendToUser "u1" Example.note Example.busy).1 !! "c2" = None.
Proof.
  pose proof (sendToUser_delivery "u1" Example.note Example.busy)
    as (Hcount & Hgone & _).
  split.
  - rewrite Hcount. vm_compute. reflexivity.
  - apply Hgone.
    + assert (bool_decide ("c2" ∈ index Example.busy "u1") = true) as Hin
        by (vm_compute; reflexivity).
      by apply bool_decide_eq_true in Hin.
    + vm_compute. reflexivity.
Defined.

(** C5. On a tick with the time reading [now], the stale connections (those
    with [now - lastPing > connectionTimeout]) are removed by [removeClient]
    and the others are kept; then the event [heartbeat] with the data
    [{timestamp: now}] is sent to each connection that is left: a
    connection whose stream takes the frame has its [lastPing] set to
    [now], and a connection whose send fails gets no new [lastPing], it is
    removed; each stream gains one copy of the frame per connection that
    took it. *)
Theorem heartbeat_tick (now : Z) (m : SSEManager) :
  let m1 := reap now m in
  let m2 := heartbeat now m in
  let hb := heartbeatEvent now in
  m1 = foldl (λ acc k, removeClient k acc) m (deadClients now m)
  ∧ m2 = foldl (ping now) m1 (keys m1)
  ∧ (∀ k c, clients m !! k = Some c →
        (connectionTimeout (config m) < now - lastPing c)%Z →
        k ∈ deadClients now m ∧ clients m1 !! k = None
        ∧ clients m2 !! k = None)
  ∧ (∀ k c, clients m !! k = Some c →
        ¬ (connectionTimeout (config m) < now - lastPing c)%Z →
        clients m1 !! k = Some c)
  ∧ ev_type hb = "heartbeat"
  ∧ ev_data hb = JObject [("timestamp", JNum now)]
  ∧ (∀ k c, clients m1 !! k = Some c →
        if Sink.is_readable (streams m1) (controller c)
        then (sendToClient k hb m1).2 = true
             ∧ clients m2 !! k = Some (set_lastPing now c)
        else (sendToClient k hb m1).2 = false
             ∧ clients m2 !! k = None)
  ∧ (∀ frame r, formatSSEMessage hb = Some frame →
        Sink.written (streams m2) r
        = (Sink.written (streams m1) r
           ++ replicate (takers m1 hb r (keys m1)) frame)%list).
Proof.
  intros m1 m2 hb.
  pose proof (loop_clients hb (ping now) (set_lastPing now)
                (ping_clients now) (ping_streams now) (keys m1) m1) as Hcl.
  assert (∀ k, clients m2 !! k
               = if decide (k ∈ keys m1)
                 then (if accepts m1 hb k
                       then set_lastPing now <$> clients m1 !! k else None)
                 else clients m1 !! k) as Hm2.
  { intros k. apply Hcl, NoDup_keys. }
  split; [done|]. split; [done|].
  split.
  { intros k c Hc Hold.
    assert (is_dead now (config m) c = true) as Hd.
    { unfold is_dead. by apply bool_decide_eq_true_2. }
    assert (clients m1 !! k = None) as H1.
    { unfold m1. by rewrite reap_clients, Hc, Hd. }
    split; [apply elem_of_deadClients; by exists c|].
    split; [done|].
    rewrite Hm2, H1. destruct (decide (k ∈ keys m1)); [|done].
    by destruct (accepts m1 hb k). }
  split.
  { intros k c Hc Hfresh. unfold m1. rewrite reap_clients, Hc.
    unfold is_dead. by rewrite bool_decide_eq_false_2. }
  split; [done|]. split; [done|].
  split.
  { intros k c Hc. rewrite Hm2, sendToClient_result.
    rewrite decide_True by (apply elem_of_keys; by eexists).
    rewrite (accepts_Some m1 hb k c Hc (heartbeatEvent_encodes now)).
    destruct (Sink.is_readable (streams m1) (controller c)); [|done].
    by rewrite Hc. }
  intros frame r Hf.
  apply (loop_written hb (ping now) (set_lastPing now)
           (ping_clients now) (ping_streams now)); [done|].
  apply NoDup_keys.
Qed.

Lemma heartbeat_tick_witness :
  clients (heartbeat 70000 Example.busy) !! "c1" = None
  ∧ lastPing <$> clients (heartbeat 60005 Example.busy) !! "c1"
    = Some 60005%Z.
Proof.
  split.
  - apply (proj1 (proj2 (proj2 (heartbeat_tick 70000 Example.busy)))
             "c1" (mkClient "c1" (Some "u1") None 1 5 None)).
    + vm_compute. reflexivity.
    + vm_compute. reflexivity.
  - pose proof (proj1 (proj2 (proj2 (proj2 (proj2 (proj2 (proj2
                  (heartbeat_tick 60005 Example.busy)))))))
                  "c1" (mkClient "c1" (Some "u1") None 1 5 None)) as Hping.
    assert (clients (reap 60005 Example.busy) !! "c1"
            = Some (mkClient "c1" (Some "u1") None 1 5 None)) as Hc
      by (vm_compute; reflexivity).
    specialize (Hping Hc).
    assert (Sink.is_readable (streams (reap 60005 Example.busy))
              (controller (mkClient "c1" (Some "u1") None 1 5 None)) = true)
      as Hr by (vm_compute; reflexivity).
    rewrite Hr in Hping. destruct Hping as [_ Hping].
    rewrite Hping. reflexivity.
Defined.

(** C6 (as amended). After [removeClient] the id is no longer in the
    connection map, nor in the index set of the user its record named; when
    the index matches the connection map (as it does in every state reached
    by registering fresh ids only) the id is in no index set at all. On an
    id that is not registered the call changes nothing, and so a second
    call changes nothing. When closing the stream throws, the error is
    caught: the streams stay as they were and the record is deleted all the
    same. The call itself never throws. *)
Theorem removeClient_spec (clientId : string) (m : SSEManager) :
  clients (removeClient clientId m) !! clientId = None
  ∧ (∀ c user, clients m !! clientId = Some c → userId c = Some user →
        user ≠ "" → clientId ∉ index (removeClient clientId m) user)
  ∧ (index_matches m →
        ∀ user, clientId ∉ index (removeClient clientId m) user)
  ∧ (clients m !! clientId = None → removeClient clientId m = m)
  ∧ removeClient clientId (removeClient clientId m) = removeClient clientId m
  ∧ (∀ c, clients m !! clientId = Some c →
        Sink.close (controller c) (streams m) = None →
        streams (removeClient clientId m) = streams m
        ∧ clients (removeClient clientId m) = delete clientId (clients m)).
Proof.
  assert (clients (removeClient clientId m) !! clientId = None) as Hgone.
  { by rewrite removeClient_clients, lookup_delete_eq. }
  split; [exact Hgone|].
  split.
  { intros c user Hc Hu Hne. rewrite removeClient_index, Hc.
    rewrite bool_decide_eq_true_2 by done. set_solver. }
  split.
  { intros Hm user Hin.
    apply (removeClient_index_matches clientId m Hm) in Hin
      as [(c & Hc & _) _].
    congruence. }
  split; [apply removeClient_unknown|].
  split; [by apply removeClient_unknown|].
  intros c Hc Hclose. split; [|apply removeClient_clients].
  unfold removeClient. rewrite Hc. simpl. by rewrite Hclose.
Qed.

Lemma removeClient_spec_witness :
  index_matches Example.busy
  ∧ ∀ user, "c1" ∉ index (removeClient "c1" Example.busy) user.
Proof.
  assert (index_matches Example.busy) as Hm.
  { apply (run_invariant Example.setup Example.fresh).
    - vm_compute. tauto.
    - apply newSSEManager_invariant. }
  split; [exact Hm|].
  exact (proj1 (proj2 (proj2 (removeClient_spec "c1" Example.busy))) Hm).
Defined.

(** C6 fails as stated: once an id has been registered a second time for
    another user, [removeClient] leaves the id in the index set of the
    first user. *)
Lemma removeClient_leaves_stale_entry :
  let m := run [CallAddClient "c1" 1 (Some "u1") None None 5 6;
                CallAddClient "c1" 2 (Some "u2") None None 7 8]
             Example.fresh in
  "c1" ∈ index (removeClient "c1" m) "u1".
Proof.
  assert (bool_decide
            ("c1" ∈ index
               (removeClient "c1"
                  (run [CallAddClient "c1" 1 (Some "u1") None None 5 6;
                        CallAddClient "c1" 2 (Some "u2") None None 7 8]
                     Example.fresh)) "u1") = true) as Hin
    by (vm_compute; reflexivity).
  by apply bool_decide_eq_true in Hin.
Qed.

(** What [addClient] does once the cap has let the call through. *)
Lemma addClient_outcome clientId ctrl us se me now1 now2 m :
  (size (clients m) < maxConnections (config m))%nat →
  let m2 := register clientId ctrl us se me now1 m in
  let m' := (addClient clientId ctrl us se me now1 now2 m).2 in
  if Sink.is_readable (streams m) ctrl
  then clients m' = clients m2
       ∧ userConnections m' = userConnections m2
       ∧ ∀ frame r,
           formatSSEMessage (connectionEvent clientId now2) = Some frame →
           Sink.written (streams m') r
           = (Sink.written (streams m) r
              ++ if decide (r = ctrl) then [frame] else [])%list
  else m' = removeClient clientId m2 ∧ streams m' = streams m.
Proof.
  intros Hroom m2 m'. unfold m'. rewrite addClient_below by done. simpl.
  fold m2.
  pose proof (register_accepts clientId ctrl us se me now1 now2 m) as Hacc.
  fold m2 in Hacc.
  assert (clients m2 !! clientId
          = Some (mkClient clientId us se ctrl now1 me)) as Hc.
  { unfold m2. by rewrite register_clients, lookup_insert_eq. }
  destruct (Sink.is_readable (streams m) ctrl) eqn:Hr.
  - split; [by rewrite sendToClient_clients, Hacc|].
    split.
    + destruct (sendToClient_shape clientId (connectionEvent clientId now2) m2)
        as [(c & frame & h & _ & _ & _ & ->)|[[_ ->]|(_ & Ha & _)]];
        [done | done | congruence].
    + intros frame r Hf.
      rewrite (sendToClient_written _ _ _ frame r Hf).
      unfold m2 at 1. rewrite register_streams. f_equal.
      unfold takes_on, controller_of. rewrite Hacc, Hc. simpl.
      destruct (decide (r = ctrl)) as [Heq|Hne].
      * subst r. by rewrite decide_True.
      * rewrite decide_False; [done|]. intros [_ Heq]. congruence.
  - destruct (sendToClient_shape clientId (connectionEvent clientId now2) m2)
      as [(c & frame & h & _ & _ & _ & Hs)|[[Hn _]|(_ & _ & ->)]].
    + pose proof (sendToClient_result clientId
                    (connectionEvent clientId now2) m2) as Hres.
      rewrite Hs, Hacc in Hres. discriminate Hres.
    + congruence.
    + simpl. split; [done|].
      rewrite (removeClient_streams_fails clientId
                 (connectionEvent clientId now2) m2).
      * unfold m2. apply register_streams.
      * apply connectionEvent_encodes.
      * split; [by eexists | by rewrite Hacc].
Qed.

(** C7 (as amended). A call of [addClient] that the cap lets through
    returns normally and sends one event to the connection it has
    registered. The event has the type [connection] and a data object with
    the properties [status], equal to [connected], [clientId], equal to the
    id of the connection, and [timestamp]. When the stream of the new
    connection takes the frame, the connection is registered and exactly
    one frame, that of this event, is added to its stream and none to any
    other stream; when the stream does not take it, nothing is written and
    the connection is not registered. *)
Theorem addClient_confirmation (clientId : string) (ctrl : Controller)
    (us se : option string) (me : option JsValue) (now1 now2 : Z)
    (m : SSEManager) :
  (size (clients m) < maxConnections (config m))%nat →
  let ev := connectionEvent clientId now2 in
  let m' := (addClient clientId ctrl us se me now1 now2 m).2 in
  (addClient clientId ctrl us se me now1 now2 m).1 = Normal ()
  ∧ ev_type ev = "connection"
  ∧ field "status" (ev_data ev) = Some (JString "connected")
  ∧ field "clientId" (ev_data ev) = Some (JString clientId)
  ∧ field "timestamp" (ev_data ev) = Some (JNum now2)
  ∧ ∃ frame,
      formatSSEMessage ev = Some frame
      ∧ if Sink.is_readable (streams m) ctrl
        then clients m' !! clientId
             = Some (mkClient clientId us se ctrl now1 me)
             ∧ ∀ r, Sink.written (streams m') r
                    = (Sink.written (streams m) r
                       ++ if decide (r = ctrl) then [frame] else [])%list
        else clients m' !! clientId = None ∧ streams m' = streams m.
Proof.
  intros Hroom ev m'.
  split; [by rewrite addClient_below|].
  do 4 (split; [reflexivity|]).
  destruct (connectionEvent_encodes clientId now2) as [frame Hf].
  exists frame. split; [exact Hf|].
  pose proof (addClient_outcome clientId ctrl us se me now1 now2 m Hroom)
    as Hout. fold m' in Hout. simpl in Hout.
  destruct (Sink.is_readable (streams m) ctrl).
  - destruct Hout as (Hcl & _ & Hw). split.
    + by rewrite Hcl, register_clients, lookup_insert_eq.
    + intros r. by apply Hw.
  - destruct Hout as [Hrm Hst]. split; [|done].
    by rewrite Hrm, removeClient_clients, lookup_delete_eq.
Qed.

Lemma addClient_confirmation_witness :
  (size (clients Example.fresh)
   < maxConnections (config Example.fresh))%nat
  ∧ (addClient "c1" 1 (Some "u1") None None 5 6 Example.fresh).1 = Normal ().
Proof.
  assert (size (clients Example.fresh)
          < maxConnections (config Example.fresh))%nat as Hroom.
  { vm_compute. lia. }
  split; [exact Hroom|].
  exact (proj1 (addClient_confirmation "c1" 1 (Some "u1") None None 5 6
                  Example.fresh Hroom)).
Defined.

(** C7 fails as stated: the data of the event sent to a new connection
    has no property [id]; the id is under [clientId]. *)
Lemma confirmation_has_no_id_property :
  let m' := (addClient "c1" 1 (Some "u1") None None 5 6 Example.fresh).2 in
  Sink.written (streams m') 1
  = ["event: connection" +:+ nl +:+
     "data: {" +:+ quote "status" +:+ ":" +:+ quote "connected" +:+ "," +:+
     quote "clientId" +:+ ":" +:+ quote "c1" +:+ "," +:+
     quote "timestamp" +:+ ":6}" +:+ nl +:+ nl]
  ∧ field "id" (ev_data (connectionEvent "c1" 6)) = None.
Proof. split; vm_compute; reflexivity. Qed.

(** C10 (as amended). [addClient] with an id that is registered, on a
    registry with room left, does not throw; the id stays in the index set
    of the user of the former record when the new user differs; no stream
    is closed, that of the former record included. When the stream of the
    new record takes the confirmation frame the connection map holds the
    new record under the id; when it does not, the id is taken out of the
    connection map. *)
Theorem addClient_registered_id (clientId : string) (ctrl : Controller)
    (us se : option string) (me : option JsValue) (now1 now2 : Z)
    (m : SSEManager) (old : SSEClient) (oldUser : string) :
  clients m !! clientId = Some old →
  userId old = Some oldUser →
  clientId ∈ index m oldUser →
  us ≠ Some oldUser →
  (size (clients m) < maxConnections (config m))%nat →
  let m' := (addClient clientId ctrl us se me now1 now2 m).2 in
  (addClient clientId ctrl us se me now1 now2 m).1 = Normal ()
  ∧ clientId ∈ index m' oldUser
  ∧ (∀ r, Sink.is_readable (streams m') r = Sink.is_readable (streams m) r)
  ∧ if Sink.is_readable (streams m) ctrl
    then clients m' !! clientId = Some (mkClient clientId us se ctrl now1 me)
    else clients m' !! clientId = None.
Proof.
  intros Hold Huser Hin Hdiff Hroom m'.
  pose proof (addClient_outcome clientId ctrl us se me now1 now2 m Hroom)
    as Hout. fold m' in Hout. simpl in Hout.
  assert (index (register clientId ctrl us se me now1 m) oldUser
          = index m oldUser) as Hidx.
  { rewrite register_index, bool_decide_eq_false_2; [done|]. tauto. }
  split; [by rewrite addClient_below|].
  split.
  { destruct (Sink.is_readable (streams m) ctrl).
    - destruct Hout as (_ & Huc & _). unfold index in *. by rewrite Huc, Hidx.
    - destruct Hout as [-> _]. rewrite removeClient_index.
      rewrite register_clients, lookup_insert_eq. simpl.
      rewrite bool_decide_eq_false_2 by tauto. by rewrite Hidx. }
  split.
  { intros r. unfold m'. rewrite addClient_below by done. simpl.
    rewrite sendToClient_readable by apply connectionEvent_encodes.
    by rewrite register_streams. }
  destruct (Sink.is_readable (streams m) ctrl).
  - destruct Hout as (Hcl & _). by rewrite Hcl, register_clients, lookup_insert_eq.
  - destruct Hout as [-> _]. by rewrite removeClient_clients, lookup_delete_eq.
Qed.

Lemma addClient_registered_id_witness :
  "c1" ∈ index
           (addClient "c1" 3 (Some "u2") None None 7 8 Example.busy).2 "u1".
Proof.
  assert (bool_decide ("c1" ∈ index Example.busy "u1") = true) as Hin
    by (vm_compute; reflexivity).
  apply bool_decide_eq_true in Hin.
  assert (size (clients Example.busy)
          < maxConnections (config Example.busy))%nat as Hroom
    by (vm_compute; lia).
  assert (clients Example.busy !! "c1"
          = Some (mkClient "c1" (Some "u1") None 1 5 None)) as Hold
    by (vm_compute; reflexivity).
  assert (Some "u2" ≠ Some "u1") as Hdiff by discriminate.
  exact (proj1 (proj2 (addClient_registered_id "c1" 3 (Some "u2") None None
                         7 8 Example.busy _ "u1" Hold eq_refl Hin Hdiff
                         Hroom))).
Defined.

(** C10 fails as stated: when the stream handed over with the registered
    id does not take the confirmation frame, the call returns normally and
    the connection map holds no record under the id afterwards, for the new
    user or any other, while the index set of the former user still holds
    the id. *)
Lemma addClient_registered_id_closed_stream :
  let r := addClient "c2" 2 (Some "u2") None None 7 8 Example.busy in
  clients Example.busy !! "c2"
  = Some (mkClient "c2" (Some "u1") None 2 5 None)
  ∧ r.1 = Normal ()
  ∧ "c2" ∈ index r.2 "u1"
  ∧ ¬ registered_for r.2 "c2" "u2".
Proof.
  split; [vm_compute; reflexivity|].
  split; [vm_compute; reflexivity|].
  split.
  - assert (bool_decide
              ("c2" ∈ index
                 (addClient "c2" 2 (Some "u2") None None 7 8 Example.busy).2
                 "u1") = true) as Hin
      by (vm_compute; reflexivity).
    by apply bool_decide_eq_true in Hin.
  - intros (c & Hc & _). vm_compute in Hc. discriminate Hc.
Qed.

End Registry.

(** * Further properties *)

(** ** Texts without line feed *)

Section Texts.

(** A closed text holds a character: each character is compared. *)
Ltac literal_occurs H :=
  vm_compute in H; repeat (destruct H as [H|H]; [discriminate H|]); exact H.
Ltac literal_no_occurs :=
  let H := fresh in intros H; literal_occurs H.

Lemma all_chars_app (P : ascii → Prop) (s t : string) :
  all_chars P (s +:+ t) ↔ all_chars P s ∧ all_chars P t.
Proof.
  induction s as [|c s IH]; [simpl; tauto|].
  rewrite string_app_cons. simpl. rewrite IH. tauto.
Qed.

Lemma occurs_app (c : ascii) (s t : string) :
  occurs c (s +:+ t) ↔ occurs c s ∨ occurs c t.
Proof.
  induction s as [|d s IH]; [simpl; tauto|].
  rewrite string_app_cons. simpl. rewrite IH. tauto.
Qed.

Lemma all_chars_not_occurs (P : ascii → Prop) (c : ascii) (s : string) :
  ¬ P c → all_chars P s → ¬ occurs c s.
Proof.
  intros Hc. induction s as [|d s IH]; simpl; [tauto|].
  intros [Hd Hs] [Heq|Hocc]; [subst d; tauto | tauto].
Qed.

Lemma pretty_N_char_decimal (d : N) : decimal_char (pretty_N_char d).
Proof.
  right. unfold pretty_N_char. repeat case_match; vm_compute; split; discriminate.
Qed.

Lemma pretty_N_go_decimal (x : N) (s : string) :
  all_chars decimal_char s → all_chars decimal_char (pretty_N_go x s).
Proof.
  revert s. induction (N.lt_wf_0 x) as [x _ IH]; intros s Hs.
  destruct (decide (0 < x)%N) as [Hpos|Hzero].
  - rewrite pretty_N_go_step by done. apply IH.
    + by apply N.div_lt.
    + split; [apply pretty_N_char_decimal | exact Hs].
  - assert (x = 0%N) as -> by lia. by rewrite pretty_N_go_0.
Qed.

Lemma pretty_N_decimal (x : N) : all_chars decimal_char (pretty x).
Proof.
  unfold pretty, pretty_N. destruct (decide (x = 0%N)).
  - split; [right; vm_compute; split; discriminate | exact I].
  - by apply pretty_N_go_decimal.
Qed.

(** The numeral of an integer is made of digits and at most a sign. *)
Lemma pretty_Z_decimal (n : Z) : all_chars decimal_char (pretty n).
Proof.
  destruct n as [|p|p].
  - split; [right; vm_compute; split; discriminate | exact I].
  - apply (pretty_N_decimal (Npos p)).
  - change (pretty (Z.neg p)) with ("-" +:+ pretty (Npos p)).
    apply all_chars_app. split; [|apply pretty_N_decimal].
    split; [by left | exact I].
Qed.

Lemma pretty_Z_no_LF (n : Z) : ¬ occurs LF (pretty n).
Proof.
  apply (all_chars_not_occurs decimal_char); [|apply pretty_Z_decimal].
  intros [Heq|Hrange]; [discriminate Heq|].
  vm_compute in Hrange. destruct Hrange as [Hlo _]. by apply Hlo.
Qed.

Lemma quote_char_no_LF (c : ascii) : ¬ occurs LF (quote_char c).
Proof.
  destruct c as [[] [] [] [] [] [] [] []]; vm_compute;
    intros H; repeat (destruct H as [H|H]; [discriminate H|]); exact H.
Qed.

Lemma quote_no_LF (s : string) : ¬ occurs LF (quote s).
Proof.
  unfold quote. simpl. intros [Heq|Hocc]; [discriminate Heq|].
  apply occurs_app in Hocc as [Hocc|Hocc].
  - induction s as [|c s IH]; simpl in Hocc; [done|].
    apply occurs_app in Hocc as [Hocc|Hocc]; [|by apply IH].
    by apply (quote_char_no_LF c).
  - simpl in Hocc. destruct Hocc as [Heq|[]]. discriminate Heq.
Qed.

Lemma join_no_LF (sep : string) (parts : list string) :
  ¬ occurs LF sep → Forall (λ p, ¬ occurs LF p) parts →
  ¬ occurs LF (join sep parts).
Proof.
  intros Hsep. induction parts as [|p parts IH]; intros Hall; [simpl; tauto|].
  apply Forall_cons in Hall as [Hp Hall].
  destruct parts as [|q parts]; [exact Hp|].
  change (join sep (p :: q :: parts)) with (p +:+ sep +:+ join sep (q :: parts)).
  rewrite !occurs_app. intros [?|[?|?]]; [tauto | tauto |]. by apply IH.
Qed.

(** [JSON.stringify] writes no line feed: those of a string are escaped,
    and no indentation is asked for. *)
Lemma stringify_no_LF : ∀ (v : JsValue) (text : string),
  stringify v = Some text → ¬ occurs LF text.
Proof.
  fix IH 1. intros v text. destruct v as [| |b|n|s|items|props]; simpl.
  - discriminate.
  - intros [= <-]. literal_no_occurs.
  - intros [= <-]. destruct b; literal_no_occurs.
  - intros [= <-]. apply pretty_Z_no_LF.
  - intros [= <-]. apply quote_no_LF.
  - intros [= <-]. rewrite !occurs_app.
    intros [H|[H|H]]; [by literal_occurs H | | by literal_occurs H].
    revert H. apply join_no_LF; [literal_no_occurs|].
    induction items as [|x items IHitems]; simpl; constructor; [|exact IHitems].
    destruct (stringify x) as [t|] eqn:Hx; simpl.
    + by apply (IH x).
    + literal_no_occurs.
  - intros [= <-]. rewrite !occurs_app.
    intros [H|[H|H]]; [by literal_occurs H | | by literal_occurs H].
    revert H. apply join_no_LF; [literal_no_occurs|].
    induction props as [|[k x] props IHprops]; [constructor|].
    destruct (stringify x) as [t|] eqn:Hx; [|exact IHprops].
    constructor; [|exact IHprops].
    rewrite !occurs_app. intros [H|[H|H]].
    + by apply (quote_no_LF k).
    + by literal_occurs H.
    + by apply (IH x t).
Qed.

(** A text without the separator is one piece. *)
Lemma split_single (sep : ascii) (s : string) :
  ¬ occurs sep s → split sep s = [s].
Proof.
  induction s as [|c s IH]; simpl; [done|].
  intros Hno. destruct (decide (c = sep)) as [->|Hne]; [tauto|].
  rewrite IH by tauto. done.
Qed.

End Texts.

(** ** More on the frame codec *)

Section CodecMore.

Lemma cut_at_sep (sep : ascii) (a b x y : string) :
  ¬ occurs sep a → ¬ occurs sep b →
  a +:+ String sep x = b +:+ String sep y → a = b ∧ x = y.
Proof.
  revert b. induction a as [|c a IH]; intros [|d b] Ha Hb Heq.
  - injection Heq as Heq. done.
  - rewrite string_app_cons in Heq. injection Heq as Hc _.
    exfalso. apply Hb. left. done.
  - rewrite string_app_cons in Heq. injection Heq as Hc _.
    exfalso. apply Ha. left. done.
  - rewrite !string_app_cons in Heq. injection Heq as Hc Heq.
    destruct (IH b) as [-> ->]; [simpl in Ha; tauto | simpl in Hb; tauto
                                | exact Heq |].
    by subst d.
Qed.

(** The data lines of a frame give the pieces of the payload back. *)
Lemma data_lines_inj (ls1 ls2 : list string) :
  Forall (λ line, ¬ occurs LF line) ls1 →
  Forall (λ line, ¬ occurs LF line) ls2 →
  data_lines ls1 +:+ nl = data_lines ls2 +:+ nl → ls1 = ls2.
Proof.
  revert ls2. induction ls1 as [|a ls1 IH]; intros [|b ls2] H1 H2 Heq.
  - done.
  - discriminate Heq.
  - discriminate Heq.
  - apply Forall_cons in H1 as [Ha H1]. apply Forall_cons in H2 as [Hb H2].
    simpl in Heq. unfold data_line in Heq.
    rewrite !string_app_assoc in Heq.
    apply (inj (String.app "data: ")) in Heq.
    change (nl +:+ ?t) with (String LF t) in Heq.
    apply cut_at_sep in Heq as [-> Heq]; [|done|done].
    f_equal. by apply IH.
Qed.

(** X1. A payload that is not a string is written on one [data:] line:
    [JSON.stringify] escapes the line feeds of the strings it meets and
    adds none, so the frame is the header, that line and the empty line. *)
Theorem json_payload_single_line (e : SSEEvent) (text : string) :
  (∀ s, ev_data e ≠ JString s) →
  stringify (ev_data e) = Some text →
  ¬ occurs LF text
  ∧ formatSSEMessage e
    = Some (header e +:+ "data: " +:+ text +:+ nl +:+ nl).
Proof.
  intros Hnot Htext.
  assert (¬ occurs LF text) as Hno by by apply (stringify_no_LF (ev_data e)).
  split; [exact Hno|].
  rewrite (formatSSEMessage_text e text).
  - rewrite split_single by done. simpl. unfold data_line.
    by rewrite string_app_nil_r, !string_app_assoc.
  - unfold dataString. destruct (ev_data e); try done. by destruct (Hnot s).
Qed.

Lemma json_payload_single_line_witness :
  formatSSEMessage
    (mkEvent "system"
       (JObject [("note", JString ("two" +:+ nl +:+ "lines"))]) None None)
  = Some ("event: system" +:+ nl +:+
          "data: {" +:+ quote "note" +:+ ":" +:+
          String DQUOTE ("two" +:+ String BACKSLASH "nlines" +:+
                         String DQUOTE "}") +:+ nl +:+ nl).
Proof.
  rewrite (proj2 (json_payload_single_line
             (mkEvent "system"
                (JObject [("note", JString ("two" +:+ nl +:+ "lines"))])
                None None)
             ("{" +:+ quote "note" +:+ ":" +:+
              String DQUOTE ("two" +:+ String BACKSLASH "nlines" +:+
                             String DQUOTE "}"))
             ltac:(discriminate) eq_refl)).
  reflexivity.
Defined.

(** X2. The frame tells the payload: two events with the same header
    fields that are encoded to the same frame have the same payload text.
    So the line feeds of a payload, each turned into the start of a new
    [data:] line, are not lost. *)
Theorem frame_determines_payload (e1 e2 : SSEEvent) (frame : string) :
  header e1 = header e2 →
  formatSSEMessage e1 = Some frame →
  formatSSEMessage e2 = Some frame →
  dataString e1 = dataString e2.
Proof.
  intros Hh Hf1 Hf2.
  destruct (dataString e1) as [t1|] eqn:Ht1;
    [|unfold formatSSEMessage in Hf1; by rewrite Ht1 in Hf1].
  destruct (dataString e2) as [t2|] eqn:Ht2;
    [|unfold formatSSEMessage in Hf2; by rewrite Ht2 in Hf2].
  rewrite (formatSSEMessage_text e1 t1 Ht1) in Hf1.
  rewrite (formatSSEMessage_text e2 t2 Ht2), <- Hf1, Hh in Hf2.
  injection Hf2 as Hf2. apply (inj (String.app (header e2))) in Hf2.
  apply data_lines_inj in Hf2; [|apply split_no_sep..].
  f_equal. rewrite <- (join_split LF t1), <- (join_split LF t2).
  by rewrite Hf2.
Qed.

Lemma frame_determines_payload_witness :
  dataString (mkEvent "a" (JString "7") None None)
  = dataString (mkEvent "a" (JNum 7) None None).
Proof.
  exact (frame_determines_payload
           (mkEvent "a" (JString "7") None None)
           (mkEvent "a" (JNum 7) None None)
           _ eq_refl eq_refl eq_refl).
Defined.

End CodecMore.

(** ** [broadcast] and events that cannot be encoded *)

Section Broadcast.

Implicit Types (m : SSEManager) (clientId user : string) (event : SSEEvent).

Lemma length_filter_split {A} (P Q : A → Prop)
    `{!∀ x, Decision (P x), !∀ x, Decision (Q x)} (l : list A) :
  (∀ x, x ∈ l → (P x ↔ ¬ Q x)) →
  length (filter P l) + length (filter Q l) = length l.
Proof.
  induction l as [|a l IH]; intros Hpq; [done|].
  assert (length (filter P l) + length (filter Q l) = length l) as Hl.
  { apply IH. intros x Hx. apply Hpq. by right. }
  rewrite !filter_cons.
  destruct (decide (P a)) as [Hp|Hp], (decide (Q a)) as [Hq|Hq]; simpl.
  - exfalso. by apply (Hpq a); [left | |].
  - lia.
  - lia.
  - exfalso. apply Hp. apply Hpq; [left | done].
Qed.

Lemma length_keys m : length (keys m) = size (clients m).
Proof. unfold keys. by rewrite length_fmap, length_map_to_list. Qed.

Lemma broadcast_clients event m k :
  clients (broadcast event m).1 !! k
  = if accepts m event k then clients m !! k else None.
Proof.
  rewrite broadcast_loop. simpl.
  rewrite (loop_clients event (send_to event) (λ c, c)
             (send_to_clients event) (send_to_streams event) (keys m) m k
             (NoDup_keys m)).
  destruct (decide (k ∈ keys m)) as [Hin|Hout].
  - destruct (accepts m event k); [|done]. by destruct (clients m !! k).
  - assert (clients m !! k = None) as Hnone.
    { destruct (clients m !! k) eqn:Hk; [|done].
      exfalso. apply Hout, elem_of_keys. by eexists. }
    unfold accepts. by rewrite Hnone.
Qed.

(** X3. [broadcast] sends to every registered connection, whatever user it
    has or has not: it returns the number of connections that took the
    frame, these keep their records and the others are deleted, so that
    the count is also the number of connections left; each stream gains
    one copy of the frame per connection that took it; and the index goes
    on matching the connection map. *)
Theorem broadcast_delivery (event : SSEEvent) (m : SSEManager) :
  let m' := (broadcast event m).1 in
  (broadcast event m).2
  = length (filter (λ k, accepts m event k = true) (keys m))
  ∧ (∀ k, clients m' !! k
          = if accepts m event k then clients m !! k else None)
  ∧ totalConnections (getStats m') = (broadcast event m).2
  ∧ (∀ frame r, formatSSEMessage event = Some frame →
        Sink.written (streams m') r
        = (Sink.written (streams m) r
           ++ replicate (takers m event r (keys m)) frame)%list)
  ∧ (registry_invariant m → registry_invariant m').
Proof.
  intros m'. unfold m'.
  split; [by rewrite broadcast_loop|].
  split; [apply broadcast_clients|].
  rewrite broadcast_loop. simpl.
  split.
  { pose proof (loop_size event (send_to event) (λ c, c)
                  (send_to_clients event) (send_to_streams event)
                  (keys m) m (NoDup_keys m)) as Hsize.
    pose proof (length_filter_split (λ k, accepts m event k = true)
                  (fails m event) (keys m)) as Hsplit.
    rewrite length_keys in Hsplit. rewrite <- Hsplit in Hsize; [lia|].
    intros k Hk. apply elem_of_keys in Hk. unfold fails.
    destruct (accepts m event k); split; try tauto; try congruence.
    intros _ [_ ?]. congruence. }
  split.
  { intros frame r Hf.
    by apply (loop_written event (send_to event) (λ c, c)
                (send_to_clients event) (send_to_streams event));
      [|apply NoDup_keys]. }
  intros Hm. pose proof (send_loop_invariant event (keys m) m 0 Hm) as Hinv.
  fold (broadcast event m) in Hinv. by rewrite broadcast_loop in Hinv.
Qed.

Lemma broadcast_delivery_witness :
  (broadcast Example.note Example.busy).2 = 2
  ∧ totalConnections (getStats (broadcast Example.note Example.busy).1) = 2.
Proof.
  pose proof (broadcast_delivery Example.note Example.busy)
    as (Hcount & _ & Hleft & _).
  assert ((broadcast Example.note Example.busy).2 = 2) as H2.
  { rewrite Hcount. vm_compute. reflexivity. }
  split; [exact H2|]. rewrite Hleft. exact H2.
Defined.

Lemma undefined_data_not_encoded event :
  ev_data event = JUndefined → formatSSEMessage event = None.
Proof.
  intros Hd. unfold formatSSEMessage, dataString. by rewrite Hd.
Qed.

Lemma not_encoded_not_accepted event m k :
  formatSSEMessage event = None → accepts m event k = false.
Proof.
  intros Hf. unfold accepts. rewrite Hf. by destruct (clients m !! k).
Qed.

(** X4. An event whose data is [undefined] cannot be encoded
    ([JSON.stringify] gives [undefined] and [split] throws), and the
    failure is taken for a dead connection: [sendToClient] removes the
    registered connection it was asked to write to, [sendToUser] returns 0
    and removes every connection listed for the user, and [broadcast]
    returns 0 and leaves the registry without any connection, whatever the
    state of the streams. *)
Theorem undefined_data_evicts (event : SSEEvent) (m : SSEManager) :
  ev_data event = JUndefined →
  (∀ k, is_Some (clients m !! k) →
        sendToClient k event m = (removeClient k m, false))
  ∧ (∀ user, (sendToUser user event m).2 = 0
             ∧ ∀ k, k ∈ index m user →
                    clients (sendToUser user event m).1 !! k = None)
  ∧ (broadcast event m).2 = 0
  ∧ clients (broadcast event m).1 = ∅.
Proof.
  intros Hf%undefined_data_not_encoded.
  assert (∀ (ids : list string),
            filter (λ k, accepts m event k = true) ids = []) as Hnone.
  { intros ids. induction ids as [|a ids IH]; [done|].
    rewrite filter_cons_False; [done|].
    by rewrite (not_encoded_not_accepted event m a Hf). }
  split.
  { intros k [c Hc]. unfold sendToClient. by rewrite Hc, Hf. }
  split.
  { intros user. rewrite sendToUser_loop. simpl. rewrite Hnone.
    split; [done|]. intros k Hk.
    rewrite (loop_clients event (send_to event) (λ c, c)
               (send_to_clients event) (send_to_streams event))
      by apply NoDup_elements.
    rewrite decide_True by by apply elem_of_elements.
    by rewrite (not_encoded_not_accepted event m k Hf). }
  split; [by rewrite broadcast_loop; simpl; rewrite Hnone|].
  apply map_eq. intros k.
  by rewrite broadcast_clients, (not_encoded_not_accepted event m k Hf),
       lookup_empty.
Qed.

Lemma undefined_data_evicts_witness :
  clients (broadcast (mkEvent "custom" JUndefined None None)
             Example.busy).1 = ∅.
Proof.
  exact (proj2 (proj2 (proj2 (undefined_data_evicts
           (mkEvent "custom" JUndefined None None) Example.busy eq_refl)))).
Defined.

End Broadcast.

(** ** [destroy] *)

Section Destroy.

Implicit Types (m : SSEManager) (clientId user : string) (event : SSEEvent).

Lemma removeClient_timer clientId m :
  heartbeatTimer (removeClient clientId m) = heartbeatTimer m.
Proof. unfold removeClient. by destruct (clients m !! clientId). Qed.

Lemma close_written r (h h' : gmap nat Stream) r' :
  Sink.close r h = Some h' → Sink.written h' r' = Sink.written h r'.
Proof.
  unfold Sink.close, Sink.written.
  destruct (h !! r) as [st|] eqn:Hst; [|done].
  destruct (readable st); [|done].
  intros [= <-]. destruct (decide (r = r')) as [<-|Hne].
  - by rewrite lookup_insert_eq, Hst.
  - by rewrite lookup_insert_ne.
Qed.

Lemma close_readable r (h h' : gmap nat Stream) r' :
  Sink.close r h = Some h' →
  Sink.is_readable h' r'
  = if decide (r = r') then false else Sink.is_readable h r'.
Proof.
  unfold Sink.close, Sink.is_readable.
  destruct (h !! r) as [st|] eqn:Hst; [|done].
  destruct (readable st); [|done].
  intros [= <-]. destruct (decide (r = r')) as [<-|Hne].
  - by rewrite lookup_insert_eq.
  - by rewrite lookup_insert_ne.
Qed.

(** [removeClient] writes nothing. *)
Lemma removeClient_written clientId m r :
  Sink.written (streams (removeClient clientId m)) r
  = Sink.written (streams m) r.
Proof.
  unfold removeClient. destruct (clients m !! clientId) as [c|]; [|done].
  simpl. destruct (Sink.close (controller c) (streams m)) eqn:Hclose; [|done].
  by apply (close_written (controller c)).
Qed.

(** After [removeClient] the stream of the removed connection accepts no
    chunk, and the other streams are as they were. *)
Lemma removeClient_readable clientId m r :
  Sink.is_readable (streams (removeClient clientId m)) r
  = match clients m !! clientId with
    | Some c => if decide (controller c = r) then false
                else Sink.is_readable (streams m) r
    | None => Sink.is_readable (streams m) r
    end.
Proof.
  unfold removeClient. destruct (clients m !! clientId) as [c|]; [|done].
  simpl. destruct (Sink.close (controller c) (streams m)) eqn:Hclose.
  - by apply close_readable.
  - apply close_None in Hclose.
    destruct (decide (controller c = r)) as [<-|Hne]; done.
Qed.

Lemma remove_loop_written (ids : list string) m r :
  Sink.written (streams (foldl (λ acc k, removeClient k acc) m ids)) r
  = Sink.written (streams m) r.
Proof.
  apply (foldl_preserves
           (λ acc, Sink.written (streams acc) r = Sink.written (streams m) r));
    [|done].
  intros acc k Hacc. by rewrite removeClient_written.
Qed.

Lemma remove_loop_timer (ids : list string) m :
  heartbeatTimer (foldl (λ acc k, removeClient k acc) m ids)
  = heartbeatTimer m.
Proof.
  apply (foldl_preserves (λ acc, heartbeatTimer acc = heartbeatTimer m));
    [|done].
  intros acc k Hacc. by rewrite removeClient_timer.
Qed.

Lemma remove_loop_closes (ids : list string) m k c :
  k ∈ ids → clients m !! k = Some c →
  Sink.is_readable
    (streams (foldl (λ acc x, removeClient x acc) m ids)) (controller c)
  = false.
Proof.
  assert (∀ (l : list string) m0 r,
            Sink.is_readable (streams m0) r = false →
            Sink.is_readable
              (streams (foldl (λ acc x, removeClient x acc) m0 l)) r = false)
    as Hstay.
  { intros l m0 r. apply (foldl_preserves
      (λ acc, Sink.is_readable (streams acc) r = false)).
    intros acc x Hacc. rewrite removeClient_readable.
    destruct (clients acc !! x) as [c'|]; [|done].
    by destruct (decide (controller c' = r)). }
  revert m. induction ids as [|a ids IH]; intros m Hin Hc.
  - by apply elem_of_nil in Hin.
  - change (foldl (λ acc x, removeClient x acc) m (a :: ids))
      with (foldl (λ acc x, removeClient x acc) (removeClient a m) ids).
    destruct (decide (k = a)) as [->|Hne].
    + apply Hstay. rewrite removeClient_readable, Hc.
      by rewrite decide_True.
    + apply IH.
      * apply elem_of_cons in Hin as [?|?]; done.
      * by rewrite removeClient_clients, lookup_delete_ne.
Qed.

Lemma keys_empty m : clients m = ∅ → keys m = [].
Proof. intros Hm. unfold keys. by rewrite Hm, map_to_list_empty. Qed.

Lemma destroy_clients m : clients (destroy m) = ∅.
Proof.
  apply map_eq. intros k. unfold destroy. rewrite remove_loop_clients.
  rewrite lookup_empty.
  destruct (decide (k ∈ keys _)) as [Hin|Hout]; [done|].
  destruct (clients _ !! k) eqn:Hk; [|done].
  exfalso. apply Hout, elem_of_keys. by eexists.
Qed.

(** An index that matches an empty connection map is empty. *)
Lemma no_clients_no_users m :
  registry_invariant m → clients m = ∅ → userConnections m = ∅.
Proof.
  intros [Hidx Hne] Hnone. apply map_eq. intros u. rewrite lookup_empty.
  destruct (userConnections m !! u) as [s|] eqn:Hs; [|done].
  exfalso. apply (Hne u s Hs). apply leibniz_equiv, elem_of_equiv_empty.
  intros k Hk.
  assert (k ∈ index m u) as Hin by (unfold index; by rewrite Hs).
  apply Hidx in Hin as [(c & Hc & _) _]. by rewrite Hnone, lookup_empty in Hc.
Qed.

(** X5. [destroy] stops the timer and removes every connection: the
    connection map is empty afterwards, the stream of every connection
    that was registered accepts no more chunks and nothing has been
    written to any stream; a firing of the timer after [destroy] does
    nothing; a second [destroy] changes nothing; and when the index
    matched the connection map it is empty too, so that [getStats]
    reports no connection and no user. *)
Theorem destroy_spec (m : SSEManager) :
  clients (destroy m) = ∅
  ∧ heartbeatTimer (destroy m) = false
  ∧ (∀ k c, clients m !! k = Some c →
        Sink.is_readable (streams (destroy m)) (controller c) = false)
  ∧ (∀ r, Sink.written (streams (destroy m)) r = Sink.written (streams m) r)
  ∧ (∀ now, step (TimerFires now) (destroy m) = destroy m)
  ∧ destroy (destroy m) = destroy m
  ∧ (registry_invariant m →
        userConnections (destroy m) = ∅
        ∧ getStats (destroy m) = mkStats 0 0 []).
Proof.
  assert (heartbeatTimer (destroy m) = false) as Htimer.
  { unfold destroy. rewrite remove_loop_timer.
    by destruct (heartbeatTimer m) eqn:Ht. }
  split; [apply destroy_clients|].
  split; [exact Htimer|].
  split.
  { intros k c Hc. unfold destroy.
    destruct (heartbeatTimer m);
      apply (remove_loop_closes _ _ k c); try done;
      apply elem_of_keys; by eexists. }
  split.
  { intros r. unfold destroy. rewrite remove_loop_written.
    by destruct (heartbeatTimer m). }
  split; [intros now; simpl; by rewrite Htimer|].
  split.
  { unfold destroy at 1. rewrite Htimer.
    by rewrite (keys_empty _ (destroy_clients m)). }
  intros Hm.
  assert (userConnections (destroy m) = ∅) as Huc.
  { apply no_clients_no_users; [by apply destroy_invariant|].
    apply destroy_clients. }
  split; [exact Huc|].
  unfold getStats. rewrite Huc, destroy_clients.
  by rewrite !map_size_empty, map_to_list_empty.
Qed.

Lemma destroy_spec_witness :
  registry_invariant Example.busy
  ∧ getStats (destroy Example.busy) = mkStats 0 0 [].
Proof.
  assert (registry_invariant Example.busy) as Hm.
  { apply (run_invariant Example.setup Example.fresh).
    - vm_compute. tauto.
    - apply newSSEManager_invariant. }
  split; [exact Hm|].
  destruct (destroy_spec Example.busy) as (_ & _ & _ & _ & _ & _ & Hstats).
  exact (proj2 (Hstats Hm)).
Defined.

End Destroy.

(** ** [getStats] *)

Section Stats.

Implicit Types (m : SSEManager) (clientId user : string) (event : SSEEvent).

Lemma size_list_to_set_le (l : list string) :
  (size (list_to_set l : gset string) ≤ length l)%nat.
Proof.
  induction l as [|x l IH].
  - by rewrite list_to_set_nil, size_empty.
  - rewrite list_to_set_cons, size_union_alt, size_singleton. simpl.
    assert (size (list_to_set l ∖ {[x]} : gset string)
            ≤ size (list_to_set l : gset string))%nat as Hle.
    { apply subseteq_size. set_solver. }
    lia.
Qed.

Lemma length_omap_le {A B} (f : A → option B) (l : list A) :
  (length (omap f l) ≤ length l)%nat.
Proof.
  induction l as [|x l IH]; [done|].
  cbn. destruct (f x); cbn; lia.
Qed.

Lemma indexed_user_Some (c : SSEClient) (u : string) :
  indexed_user c = Some u ↔ userId c = Some u ∧ u ≠ "".
Proof.
  unfold indexed_user. destruct (userId c) as [u'|]; [|naive_solver].
  destruct (truthy_string u') eqn:Ht.
  - apply truthy_string_true in Ht. naive_solver.
  - assert (u' = "") as ->.
    { destruct (decide (u' = "")) as [|Hne]; [done|].
      apply truthy_string_true in Hne. congruence. }
    naive_solver.
Qed.

Lemma elem_of_users_of m u :
  u ∈ users_of m ↔ ∃ k, registered_for m k u ∧ u ≠ "".
Proof.
  unfold users_of, registered_for.
  rewrite elem_of_list_to_set, list_elem_of_omap. split.
  - intros ([k c] & Hin & Hu). apply elem_of_map_to_list in Hin.
    apply indexed_user_Some in Hu as [Hu Hne]. exists k. eauto.
  - intros (k & (c & Hc & Hu) & Hne). exists (k, c).
    split; [by apply elem_of_map_to_list|]. by apply indexed_user_Some.
Qed.

Lemma elem_of_connections_of m u k :
  k ∈ connections_of m u ↔ registered_for m k u.
Proof.
  unfold connections_of, registered_for. rewrite elem_of_dom. split.
  - intros [c Hc]. apply map_lookup_filter_Some in Hc as [Hc Hu]. eauto.
  - intros (c & Hc & Hu). exists c. by apply map_lookup_filter_Some.
Qed.

(** When the index matches the connection map, the set it holds for a
    user is the set of the user's connections. *)
Lemma index_connections_of m u :
  registry_invariant m → u ≠ "" → index m u = connections_of m u.
Proof.
  intros [Hidx _] Hne. apply leibniz_equiv. intros k.
  rewrite elem_of_connections_of. split.
  - by intros [? _]%Hidx.
  - intros Hk. by apply Hidx.
Qed.

Lemma dom_userConnections m :
  registry_invariant m → dom (userConnections m) = users_of m.
Proof.
  intros [Hidx Hne]. apply leibniz_equiv. intros u.
  rewrite elem_of_dom, elem_of_users_of. split.
  - intros [s Hs].
    destruct (set_choose_L s (Hne u s Hs)) as [k Hk].
    assert (k ∈ index m u) as Hin by (unfold index; by rewrite Hs).
    apply Hidx in Hin. by exists k.
  - intros (k & Hk & Hu).
    assert (k ∈ index m u) as Hin by by apply Hidx.
    unfold index in Hin.
    destruct (userConnections m !! u) as [s|]; [by eexists|].
    simpl in Hin. set_solver.
Qed.

(** X6. When the index matches the connection map, [getStats] counts what
    it says: [uniqueUsers] is the number of distinct users (with a user id
    that is not empty) that have a connection, and it is at most
    [totalConnections]; [connectionsByUser] lists each of these users
    once, with the number of the user's connections, which is at least
    one. *)
Theorem getStats_consistent (m : SSEManager) :
  registry_invariant m →
  let st := getStats m in
  uniqueUsers st = size (users_of m)
  ∧ (uniqueUsers st ≤ totalConnections st)%nat
  ∧ NoDup (connectionsByUser st).*1
  ∧ (∀ u n, (u, n) ∈ connectionsByUser st ↔
            u ∈ users_of m ∧ n = size (connections_of m u))
  ∧ (∀ u n, (u, n) ∈ connectionsByUser st → (1 ≤ n)%nat).
Proof.
  intros Hm st. pose proof Hm as [Hidx Hne].
  assert (uniqueUsers st = size (users_of m)) as Hu.
  { unfold st. simpl. by rewrite <- (dom_userConnections m Hm), size_dom. }
  assert (∀ u n, (u, n) ∈ connectionsByUser st ↔
                 ∃ s, userConnections m !! u = Some s ∧ n = size s) as Hlist.
  { intros u n. unfold st. simpl. rewrite list_elem_of_fmap. split.
    - intros ([u' s] & [= -> ->] & Hin). apply elem_of_map_to_list in Hin.
      by exists s.
    - intros (s & Hs & ->). exists (u, s). split; [done|].
      by apply elem_of_map_to_list. }
  assert (∀ u s, userConnections m !! u = Some s →
                 u ∈ users_of m ∧ s = connections_of m u) as Hentry.
  { intros u s Hs.
    assert (u ∈ users_of m) as Hin.
    { rewrite <- (dom_userConnections m Hm). apply elem_of_dom. by eexists. }
    split; [exact Hin|].
    apply elem_of_users_of in Hin as (_ & _ & Hnonempty).
    rewrite <- (index_connections_of m u Hm Hnonempty).
    unfold index. by rewrite Hs. }
  split; [exact Hu|].
  split.
  { rewrite Hu. unfold st, users_of. simpl.
    etrans; [apply size_list_to_set_le|].
    etrans; [apply length_omap_le|]. by rewrite length_map_to_list. }
  split.
  { unfold st. simpl. rewrite <- list_fmap_compose.
    apply NoDup_fst_map_to_list. }
  split.
  { intros u n. rewrite Hlist. split.
    - intros (s & Hs & ->). destruct (Hentry u s Hs) as [Hin ->]. done.
    - intros [Hin ->].
      rewrite <- (dom_userConnections m Hm) in Hin.
      apply elem_of_dom in Hin as [s Hs]. exists s. split; [done|].
      by destruct (Hentry u s Hs) as [_ ->]. }
  intros u n (s & Hs & ->)%Hlist.
  assert (size s ≠ 0); [|lia].
  intros Hz. apply size_empty_inv, leibniz_equiv in Hz. by apply (Hne u s Hs).
Qed.

Lemma getStats_consistent_witness :
  registry_invariant Example.busy
  ∧ uniqueUsers (getStats Example.busy) = size (users_of Example.busy).
Proof.
  assert (registry_invariant Example.busy) as Hm.
  { apply (run_invariant Example.setup Example.fresh).
    - vm_compute. tauto.
    - apply newSSEManager_invariant. }
  split; [exact Hm|].
  exact (proj1 (getStats_consistent Example.busy Hm)).
Defined.

End Stats.

(** ** [addClient] followed by [removeClient] *)

Section AddRemove.

Implicit Types (m : SSEManager) (clientId user : string) (event : SSEEvent).

(** The maps after [removeClient] depend on the maps only. *)
Lemma removeClient_maps clientId m m0 :
  clients m0 = clients m → userConnections m0 = userConnections m →
  clients (removeClient clientId m0) = clients (removeClient clientId m)
  ∧ userConnections (removeClient clientId m0)
    = userConnections (removeClient clientId m).
Proof.
  intros Hc Hu. unfold removeClient. rewrite Hc, Hu.
  by destruct (clients m !! clientId).
Qed.

Lemma register_then_remove clientId ctrl us se me now1 m :
  clients m !! clientId = None →
  registry_invariant m →
  let m2 := register clientId ctrl us se me now1 m in
  clients (removeClient clientId m2) = clients m
  ∧ userConnections (removeClient clientId m2) = userConnections m.
Proof.
  intros Hfresh [Hidx Hne] m2.
  split.
  { unfold m2. rewrite removeClient_clients, register_clients.
    by rewrite delete_insert_id. }
  assert (∀ u, clientId ∉ index m u) as Hout.
  { intros u Hin. apply Hidx in Hin as [(c & Hc & _) _]. congruence. }
  unfold removeClient.
  assert (clients m2 !! clientId
          = Some (mkClient clientId us se ctrl now1 me)) as ->.
  { unfold m2. by rewrite register_clients, lookup_insert_eq. }
  cbn [userId]. unfold m2, register.
  destruct us as [u|]; [|done].
  destruct (truthy_string u) eqn:Ht; [|done].
  cbn [userConnections set_userConnections set_clients clients].
  specialize (Hout u). unfold index in Hout.
  destruct (userConnections m !! u) as [s|] eqn:Hs.
  - rewrite lookup_alter_eq, Hs. cbn [fmap option_fmap option_map].
    assert ((s ∪ {[clientId]}) ∖ {[clientId]} = s) as ->.
    { simpl in Hout. set_solver. }
    rewrite decide_False.
    + apply map_eq. intros u'. destruct (decide (u = u')) as [<-|Hd].
      * by rewrite lookup_insert_eq.
      * by rewrite lookup_insert_ne, lookup_alter_ne.
    + intros Hz. apply size_empty_inv, leibniz_equiv in Hz.
      by apply (Hne u s Hs).
  - rewrite lookup_alter_eq, lookup_insert_eq.
    cbn [fmap option_fmap option_map].
    assert ((∅ ∪ {[clientId]}) ∖ {[clientId]} = (∅ : gset string)) as ->
      by set_solver.
    destruct (decide (size (∅ : gset string) = 0)) as [_|Hz];
      [|by rewrite size_empty in Hz].
    apply map_eq. intros u'. destruct (decide (u = u')) as [<-|Hd].
    + by rewrite lookup_delete_eq.
    + by rewrite lookup_delete_ne, lookup_alter_ne, lookup_insert_ne.
Qed.

(** X7. Registering a connection under a fresh id and removing it again
    gives the connection map and the user index back as they were (when
    the index matched the connection map), whether or not the stream of
    the connection took the confirmation; the configuration is as it
    was. *)
Theorem addClient_then_removeClient (clientId : string) (ctrl : Controller)
    (us se : option string) (me : option JsValue) (now1 now2 : Z)
    (m : SSEManager) :
  clients m !! clientId = None →
  registry_invariant m →
  (size (clients m) < maxConnections (config m))%nat →
  let m' := removeClient clientId
              (addClient clientId ctrl us se me now1 now2 m).2 in
  clients m' = clients m
  ∧ userConnections m' = userConnections m
  ∧ config m' = config m.
Proof.
  intros Hfresh Hm Hroom m'.
  pose proof (register_then_remove clientId ctrl us se me now1 m Hfresh Hm)
    as [Hcl Huc]. simpl in Hcl, Huc.
  pose proof (addClient_outcome clientId ctrl us se me now1 now2 m Hroom)
    as Hout. simpl in Hout.
  assert (config m' = config m) as Hcfg.
  { unfold m'. by rewrite removeClient_config, addClient_config. }
  destruct (Sink.is_readable (streams m) ctrl).
  - destruct Hout as (Hc & Hu & _).
    destruct (removeClient_maps clientId
                (register clientId ctrl us se me now1 m)
                (addClient clientId ctrl us se me now1 now2 m).2 Hc Hu)
      as [Hc' Hu'].
    unfold m'. by rewrite Hc', Hu', Hcl, Huc.
  - destruct Hout as [Hrm _]. unfold m'. rewrite Hrm.
    rewrite (removeClient_unknown clientId (removeClient clientId _)).
    + by rewrite Hcl, Huc, removeClient_config, register_config.
    + by rewrite removeClient_clients, lookup_delete_eq.
Qed.

Lemma addClient_then_removeClient_witness :
  clients (removeClient "c9"
             (addClient "c9" 3 (Some "u1") None None 7 8 Example.busy).2)
  = clients Example.busy.
Proof.
  assert (registry_invariant Example.busy) as Hm.
  { apply (run_invariant Example.setup Example.fresh).
    - vm_compute. tauto.
    - apply newSSEManager_invariant. }
  assert (size (clients Example.busy)
          < maxConnections (config Example.busy))%nat as Hroom
    by (vm_compute; lia).
  exact (proj1 (addClient_then_removeClient "c9" 3 (Some "u1") None None
                  7 8 Example.busy eq_refl Hm Hroom)).
Defined.

(** X8. [removeClient] makes room: on a registry that is within its cap,
    after a registered connection has been removed [addClient] does not
    throw, even if the registry was full. *)
Theorem removeClient_makes_room (gone clientId : string) (ctrl : Controller)
    (us se : option string) (me : option JsValue) (now1 now2 : Z)
    (m : SSEManager) :
  is_Some (clients m !! gone) →
  (size (clients m) ≤ maxConnections (config m))%nat →
  (addClient clientId ctrl us se me now1 now2 (removeClient gone m)).1
  = Normal ().
Proof.
  intros [c Hc] Hcap. rewrite addClient_below; [done|].
  rewrite removeClient_config, removeClient_clients, map_size_delete, Hc.
  assert (size (clients m) ≠ 0) by (apply map_size_ne_0_lookup; eauto).
  simpl. lia.
Qed.

Lemma removeClient_makes_room_witness :
  addClient "c2" 2 (Some "u2") None None 7 8 Example.full
  = (Throw "Maximum connections reached", Example.full)
  ∧ (addClient "c2" 2 (Some "u2") None None 7 8
       (removeClient "c1" Example.full)).1 = Normal ().
Proof.
  split; [vm_compute; reflexivity|].
  apply removeClient_makes_room.
  - vm_compute. by eexists.
  - vm_compute. lia.
Defined.

End AddRemove.

(** ** More on the heartbeat *)

Section HeartbeatMore.

Implicit Types (m : SSEManager) (clientId user : string) (event : SSEEvent).

Lemma reap_config now m : config (reap now m) = config m.
Proof. apply remove_loop_config. Qed.

(** The record of a connection that is left after a tick. *)
Lemma heartbeat_clients now m k :
  clients (heartbeat now m) !! k
  = match clients m !! k with
    | Some c =>
        if is_dead now (config m) c then None
        else if Sink.is_readable (streams (reap now m)) (controller c)
             then Some (set_lastPing now c) else None
    | None => None
    end.
Proof.
  unfold heartbeat.
  rewrite (loop_clients (heartbeatEvent now) (ping now) (set_lastPing now)
             (ping_clients now) (ping_streams now) (keys (reap now m))
             (reap now m) k (NoDup_keys _)).
  pose proof (reap_clients now m k) as Hreap.
  destruct (decide (k ∈ keys (reap now m))) as [Hin|Hout].
  - apply elem_of_keys in Hin as [c Hc]. rewrite Hc in Hreap.
    rewrite (accepts_Some _ _ _ c Hc (heartbeatEvent_encodes now)), Hc.
    destruct (clients m !! k) as [c0|]; [|done].
    destruct (is_dead now (config m) c0); [done|].
    injection Hreap as ->.
    by destruct (Sink.is_readable (streams (reap now m)) (controller c0)).
  - assert (clients (reap now m) !! k = None) as Hnone.
    { destruct (clients (reap now m) !! k) eqn:Hk; [|done].
      exfalso. apply Hout, elem_of_keys. by eexists. }
    rewrite Hnone in *.
    destruct (clients m !! k) as [c0|]; [|done].
    by destruct (is_dead now (config m) c0).
Qed.

(** X9. After a tick every connection that is still registered has
    answered it: it was registered before and was not stale, its record is
    the former one with [lastPing] set to the time of the tick, and its
    stream accepts chunks. *)
Theorem heartbeat_survivors (now : Z) (m : SSEManager) (k : string)
    (c : SSEClient) :
  clients (heartbeat now m) !! k = Some c →
  lastPing c = now
  ∧ Sink.is_readable (streams (heartbeat now m)) (controller c) = true
  ∧ ∃ c0, clients m !! k = Some c0
          ∧ c = set_lastPing now c0
          ∧ (now - lastPing c0 ≤ connectionTimeout (config m))%Z.
Proof.
  rewrite heartbeat_clients.
  destruct (clients m !! k) as [c0|]; [|done].
  destruct (is_dead now (config m) c0) eqn:Hdead; [done|].
  destruct (Sink.is_readable (streams (reap now m)) (controller c0)) eqn:Hr;
    [|done].
  intros [= <-]. split; [done|]. split.
  - unfold heartbeat.
    rewrite (loop_readable (heartbeatEvent now) (ping now)
               (ping_streams now));
      [exact Hr | apply heartbeatEvent_encodes].
  - exists c0. split; [done|]. split; [done|].
    unfold is_dead in Hdead. apply bool_decide_eq_false in Hdead. lia.
Qed.

Lemma heartbeat_survivors_witness :
  clients (heartbeat 60005 Example.busy) !! "c3"
  = Some (mkClient "c3" (Some "u2") None 3 60005 None)
  ∧ Sink.is_readable (streams (heartbeat 60005 Example.busy)) 3 = true.
Proof.
  assert (clients (heartbeat 60005 Example.busy) !! "c3"
          = Some (mkClient "c3" (Some "u2") None 3 60005 None)) as Hc
    by (vm_compute; reflexivity).
  split; [exact Hc|].
  exact (proj1 (proj2 (heartbeat_survivors 60005 Example.busy "c3" _ Hc))).
Defined.

(** X10. A tick leaves nothing for the reaper of the next tick, when that
    one comes within [connectionTimeout]: no connection is stale, and the
    reaping changes nothing. *)
Theorem next_tick_reaps_nothing (now now' : Z) (m : SSEManager) :
  (now' - now ≤ connectionTimeout (config m))%Z →
  deadClients now' (heartbeat now m) = []
  ∧ reap now' (heartbeat now m) = heartbeat now m.
Proof.
  intros Hsoon.
  assert (deadClients now' (heartbeat now m) = []) as Hnone.
  { apply elem_of_nil_inv. intros k Hk.
    apply elem_of_deadClients in Hk as (c & Hc & Hdead).
    assert (lastPing c = now) as Hping.
    { rewrite heartbeat_clients in Hc.
      destruct (clients m !! k) as [c0|]; [|done].
      destruct (is_dead now (config m) c0); [done|].
      destruct (Sink.is_readable _ _); [|done]. by injection Hc as <-. }
    unfold is_dead in Hdead. apply bool_decide_eq_true in Hdead.
    rewrite heartbeat_config in Hdead. lia. }
  split; [exact Hnone|]. unfold reap. by rewrite Hnone.
Qed.

Lemma next_tick_reaps_nothing_witness :
  reap 90000 (heartbeat 60005 Example.busy) = heartbeat 60005 Example.busy.
Proof.
  apply (next_tick_reaps_nothing 60005 90000 Example.busy).
  vm_compute. discriminate.
Defined.

End HeartbeatMore.

(** ** Streams a send does not touch *)

Section Isolation.

Implicit Types (m : SSEManager) (clientId user : string) (event : SSEEvent).

Lemma enqueue_other r chunk (h h' : gmap nat Stream) r' :
  Sink.enqueue r chunk h = Some h' → r ≠ r' → h' !! r' = h !! r'.
Proof.
  unfold Sink.enqueue. destruct (h !! r) as [st|]; [|done].
  destruct (readable st); [|done].
  intros [= <-] Hne. by rewrite lookup_insert_ne.
Qed.

Lemma close_other r (h h' : gmap nat Stream) r' :
  Sink.close r h = Some h' → r ≠ r' → h' !! r' = h !! r'.
Proof.
  unfold Sink.close. destruct (h !! r) as [st|]; [|done].
  destruct (readable st); [|done].
  intros [= <-] Hne. by rewrite lookup_insert_ne.
Qed.

Lemma removeClient_stream_other clientId m r :
  controller_of m clientId ≠ Some r →
  streams (removeClient clientId m) !! r = streams m !! r.
Proof.
  unfold controller_of, removeClient.
  destruct (clients m !! clientId) as [c|]; [|done]. simpl. intros Hne.
  destruct (Sink.close (controller c) (streams m)) eqn:Hclose; [|done].
  apply (close_other (controller c)); [done | congruence].
Qed.

Lemma sendToClient_stream_other clientId event m r :
  controller_of m clientId ≠ Some r →
  streams (sendToClient clientId event m).1 !! r = streams m !! r.
Proof.
  intros Hne.
  destruct (sendToClient_shape clientId event m)
    as [(c & frame & h & Hc & _ & Hq & ->)|[[_ ->]|(_ & _ & ->)]]; simpl.
  - apply (enqueue_other (controller c) frame); [done|].
    unfold controller_of in Hne. rewrite Hc in Hne. simpl in Hne. congruence.
  - done.
  - by apply removeClient_stream_other.
Qed.

Lemma send_loop_stream_other event (ids : list string) m r :
  NoDup ids →
  (∀ k, k ∈ ids → controller_of m k ≠ Some r) →
  streams (foldl (send_to event) m ids) !! r = streams m !! r.
Proof.
  revert m. induction ids as [|a ids IH]; intros m Hnd Hall; [done|].
  apply NoDup_cons in Hnd as [Ha Hnd].
  change (foldl (send_to event) m (a :: ids))
    with (foldl (send_to event) (send_to event m a) ids).
  rewrite IH; [| done |].
  - unfold send_to. apply sendToClient_stream_other, Hall. by left.
  - intros k Hk. unfold controller_of.
    rewrite (body_lookup_other event (send_to event) (λ c, c)
               (send_to_clients event)) by (intros ->; done).
    apply Hall. by right.
Qed.

(** X11. [sendToUser] touches the streams of the connections listed for
    the user and no other: a stream that is the stream of none of them is
    afterwards as it was, nothing written to it and not closed, and the
    records of the connections that are not listed are as they were. *)
Theorem sendToUser_isolation (user : string) (event : SSEEvent)
    (m : SSEManager) (r : Controller) :
  (∀ k, k ∈ index m user → controller_of m k ≠ Some r) →
  streams (sendToUser user event m).1 !! r = streams m !! r
  ∧ ∀ k, k ∉ index m user →
         clients (sendToUser user event m).1 !! k = clients m !! k.
Proof.
  intros Hall. rewrite sendToUser_loop. simpl. split.
  - apply send_loop_stream_other; [apply NoDup_elements|].
    intros k Hk. apply Hall. by apply elem_of_elements.
  - intros k Hk.
    rewrite (loop_clients event (send_to event) (λ c, c)
               (send_to_clients event) (send_to_streams event))
      by apply NoDup_elements.
    rewrite decide_False; [done|]. by rewrite elem_of_elements.
Qed.

Lemma sendToUser_isolation_witness :
  streams (sendToUser "u1" Example.note Example.busy).1 !! 3
  = streams Example.busy !! 3.
Proof.
  apply (sendToUser_isolation "u1" Example.note Example.busy 3).
  intros k Hk.
  assert (bool_decide (index Example.busy "u1" = {[ "c1"; "c2" ]}) = true)
    as Hidx by (vm_compute; reflexivity).
  apply bool_decide_eq_true in Hidx.
  rewrite Hidx in Hk.
  apply elem_of_union in Hk as [Hk|Hk]; apply elem_of_singleton in Hk;
    subst k; vm_compute; discriminate.
Defined.

End Isolation.

(** ** The notification utilities *)

Section NotificationFacts.

Import Notifications.

Implicit Types (m : SSEManager) (user : string) (event : SSEEvent).
Implicit Types (payload : list (string * JsValue)).

Lemma string_app_nonempty (s t : string) : t ≠ "" → s +:+ t ≠ "".
Proof. intros Ht. by destruct s. Qed.

Lemma generated_id_nonempty (prefix : string) (now : Z) (rnd : string) :
  prefix +:+ pretty now +:+ "_" +:+ rnd ≠ "".
Proof. by do 2 apply string_app_nonempty. Qed.









Lemma property_set_property_eq (name : string) (v : JsValue) payload :
  property name (set_property name v payload) = Some v.
Proof.
  induction payload as [|[k x] rest IH]; simpl.
  - by rewrite decide_True.
  - destruct (decide (k = name)) as [->|Hne]; simpl.
    + by rewrite decide_True.
    + by rewrite decide_False.
Qed.

Lemma property_set_property_ne (name other : string) (v : JsValue) payload :
  other ≠ name →
  property other (set_property name v payload) = property other payload.
Proof.
  intros Hne. induction payload as [|[k x] rest IH]; simpl.
  - by rewrite decide_False.
  - destruct (decide (k = name)) as [->|Hk]; simpl.
    + by rewrite !decide_False.
    + destruct (decide (k = other)); [done | exact IH].
Qed.

(** X14. The utilities forward the payload as it is, and see to the
    timestamp: every property of the payload other than [timestamp] is a
    property of the data of the event, with the same value; the data has a
    [timestamp], which is that of the payload when the payload has one
    that is truthy, and the time of the call otherwise, so that a
    timestamp of 0 is replaced. *)
Theorem envelope_data (type prefix : string)
    (payload : list (string * JsValue)) (now1 now2 : Z) (rnd : string) :
  let data := ev_data (envelope type prefix payload now1 now2 rnd) in
  (∀ name, name ≠ "timestamp" → field name data = property name payload)
  ∧ (∀ v, property "timestamp" payload = Some v → truthy v = true →
          field "timestamp" data = Some v)
  ∧ (property "timestamp" payload = None →
     field "timestamp" data = Some (JNum now1))
  ∧ (property "timestamp" payload = Some (JNum 0) →
     field "timestamp" data = Some (JNum now1)).
Proof.
  intros data. unfold data, envelope. simpl.
  split; [intros name Hne; by apply property_set_property_ne|].
  rewrite property_set_property_eq. unfold or_else, get.
  split; [intros v -> Hv; simpl; by rewrite Hv|].
  split; by intros ->.
Qed.

Lemma envelope_data_witness :
  field "timestamp"
    (ev_data (envelope "system" "system_"
                [("event", JString "sync"); ("timestamp", JNum 0)]
                1700 1701 "k3x"))
  = Some (JNum 1700).
Proof.
  exact (proj2 (proj2 (proj2 (envelope_data "system" "system_"
           [("event", JString "sync"); ("timestamp", JNum 0)]
           1700 1701 "k3x"))) eq_refl).
Defined.

(** X15. A custom event always carries an id, so its frame always starts
    with an id line: the id of the options when they give one that is not
    empty, and the generated id otherwise, which is never empty. *)
Theorem custom_event_id (prefix eventType : string) (data : JsValue)
    (options : option CustomOptions) (now : Z) (rnd : string) :
  let ev := customEvent prefix eventType data options now rnd in
  let generated := prefix +:+ pretty now +:+ "_" +:+ rnd in
  ∃ i, ev_id ev = Some i
       ∧ i ≠ ""
       ∧ id_line ev = "id: " +:+ i +:+ nl
       ∧ (∀ o given, options = Some o → opt_id o = Some given →
                     given ≠ "" → i = given)
       ∧ (options = None ∨ (∃ o, options = Some o ∧ opt_id o = None)
          ∨ (∃ o, options = Some o ∧ opt_id o = Some "") → i = generated).
Proof.
  intros ev generated. exists (custom_id prefix options now rnd).
  assert (custom_id prefix options now rnd ≠ "") as Hne.
  { unfold custom_id. destruct options as [[[i|] r]|]; simpl;
      try apply generated_id_nonempty.
    destruct (truthy_string i) eqn:Hi; [by apply truthy_string_true|].
    apply generated_id_nonempty. }
  split; [done|]. split; [exact Hne|].
  split.
  { unfold id_line, ev, customEvent. simpl.
    by rewrite (proj2 (truthy_string_true _) Hne). }
  split.
  { intros o given -> Hgiven Hg. unfold custom_id. rewrite Hgiven.
    by rewrite (proj2 (truthy_string_true _) Hg). }
  intros [->|[(o & -> & Ho)|(o & -> & Ho)]]; unfold custom_id;
    [done | by rewrite Ho | by rewrite Ho].
Qed.

Lemma custom_event_id_witness :
  ev_id (customEvent "custom_" "progress" (JNum 40)
           (Some (mkOptions (Some "") (Some 0%Z))) 1700 "k3x")
  = Some "custom_1700_k3x".
Proof.
  destruct (custom_event_id "custom_" "progress" (JNum 40)
              (Some (mkOptions (Some "") (Some 0%Z))) 1700 "k3x")
    as (i & Hi & _ & _ & _ & Hgen).
  rewrite Hi. f_equal. apply Hgen. right. right. by eexists.
Defined.

End NotificationFacts.

(** ** The route *)

Section RouteFacts.

Import Route.

Implicit Types (m : SSEManager) (user : option string) (req : Request).

Lemma pretty_Z_no_underscore (n : Z) : ¬ occurs "_"%char (pretty n).
Proof.
  apply (all_chars_not_occurs decimal_char); [|apply pretty_Z_decimal].
  intros [Heq|Hrange]; [discriminate Heq|].
  vm_compute in Hrange. destruct Hrange as [_ Hhi]. by apply Hhi.
Qed.

(** X16. The ids the route makes tell the connections apart: two ids are
    the same only when both the reading of the clock and the random
    suffix are the same. *)
Theorem clientId_of_inj (now now' : Z) (rnd rnd' : string) :
  clientId_of now rnd = clientId_of now' rnd' ↔ now = now' ∧ rnd = rnd'.
Proof.
  split; [|by intros [-> ->]].
  unfold clientId_of. intros Heq.
  apply (inj (String.app "client_")) in Heq.
  change ("_" +:+ ?t) with (String "_"%char t) in Heq.
  apply cut_at_sep in Heq as [Hnow Hrnd];
    [|apply pretty_Z_no_underscore..].
  split; [by apply (inj pretty) | done].
Qed.

Lemma fresh_stream m : streams m !! fresh (dom (streams m)) = None.
Proof. apply not_elem_of_dom, is_fresh. Qed.

(** X17. Connecting to a registry that is full is not refused with an
    error status: the response still has the status 200, with a stream
    that is errored and holds no frame; the registry is as it was, apart
    from the store holding that stream. *)
Theorem connect_when_full user req (now1 now2 now3 now4 : Z) (rnd : string)
    (m : SSEManager) :
  (maxConnections (config m) ≤ size (clients m))%nat →
  let r := fresh (dom (streams m)) in
  let out := connect user req now1 now2 now3 now4 rnd m in
  out.1 = mkResponse 200 (StreamBody r)
  ∧ clients out.2 = clients m
  ∧ userConnections out.2 = userConnections m
  ∧ streams out.2 = <[r := mkStream false []]> (streams m)
  ∧ streams m !! r = None.
Proof.
  intros Hfull r out. unfold out, connect. fold r.
  rewrite addClient_full by done. simpl.
  split; [done|]. split; [done|]. split; [done|].
  split; [|apply fresh_stream].
  unfold error_stream. rewrite lookup_insert_eq. simpl.
  by rewrite insert_insert_eq.
Qed.

Lemma connect_when_full_witness :
  (connect (Some "u2") (mkRequest None None None) 10 11 12 13 "k3x"
     Example.full).1 = mkResponse 200 (StreamBody 4)
  ∧ clients (connect (Some "u2") (mkRequest None None None) 10 11 12 13 "k3x"
               Example.full).2 = clients Example.full.
Proof.
  assert (maxConnections (config Example.full)
          ≤ size (clients Example.full))%nat as Hfull
    by (vm_compute; lia).
  destruct (connect_when_full (Some "u2") (mkRequest None None None)
              10 11 12 13 "k3x" Example.full Hfull) as (Hresp & Hcl & _).
  split; [|exact Hcl]. rewrite Hresp. vm_compute. reflexivity.
Defined.

(** What [connect] does to a registry with room. *)
Lemma connect_with_room user req (now1 now2 now3 now4 : Z) (rnd : string) m :
  (size (clients m) < maxConnections (config m))%nat →
  let r := fresh (dom (streams m)) in
  let clientId := clientId_of now1 rnd in
  let record := mkClient clientId user (sessionId_of user) r now3
                  (Some (metadata_of req now2)) in
  let m0 := set_streams (<[r := mkStream true []]> (streams m)) m in
  let out := connect user req now1 now2 now3 now4 rnd m in
  out.1 = mkResponse 200 (StreamBody r)
  ∧ clients out.2 = <[clientId := record]> (clients m)
  ∧ userConnections out.2
    = userConnections
        (register clientId r user (sessionId_of user)
           (Some (metadata_of req now2)) now3 m0)
  ∧ ∀ frame, formatSSEMessage (connectionEvent clientId now4) = Some frame →
             streams out.2 = <[r := mkStream true [frame]]> (streams m).
Proof.
  intros Hroom r clientId record m0 out.
  pose proof (addClient_outcome clientId r user (sessionId_of user)
                (Some (metadata_of req now2)) now3 now4 m0 Hroom) as Hout.
  cbv zeta in Hout.
  assert (Sink.is_readable (streams m0) r = true) as Hr.
  { unfold m0, Sink.is_readable. simpl. by rewrite lookup_insert_eq. }
  rewrite Hr in Hout. destruct Hout as (Hcl & Huc & _).
  assert (out = (mkResponse 200 (StreamBody r),
                 (addClient clientId r user (sessionId_of user)
                    (Some (metadata_of req now2)) now3 now4 m0).2)) as Hconn.
  { unfold out, connect. fold r clientId m0.
    rewrite (addClient_below clientId r user (sessionId_of user)
               (Some (metadata_of req now2)) now3 now4 m0 Hroom).
    done. }
  rewrite Hconn. simpl.
  split; [done|].
  split; [by rewrite Hcl, register_clients|].
  split; [exact Huc|].
  intros frame Hf. rewrite addClient_below by done. simpl.
  unfold sendToClient.
  rewrite register_clients, lookup_insert_eq, Hf, register_streams.
  unfold Sink.enqueue, m0. simpl. rewrite lookup_insert_eq. simpl.
  by rewrite insert_insert_eq.
Qed.

(** X18. Connecting to a registry with room always gets the confirmation
    through: the stream is new, so it takes the frame, and afterwards it
    holds exactly that one frame; the connection is registered under the
    generated id with the user of the session, the session id made from
    it, and the metadata of the request; the other streams are as they
    were. *)
Theorem connect_registers user req (now1 now2 now3 now4 : Z) (rnd : string)
    (m : SSEManager) :
  (size (clients m) < maxConnections (config m))%nat →
  let r := fresh (dom (streams m)) in
  let clientId := clientId_of now1 rnd in
  let out := connect user req now1 now2 now3 now4 rnd m in
  out.1 = mkResponse 200 (StreamBody r)
  ∧ clients out.2 !! clientId
    = Some (mkClient clientId user (sessionId_of user) r now3
              (Some (metadata_of req now2)))
  ∧ (∀ k, k ≠ clientId → clients out.2 !! k = clients m !! k)
  ∧ (∀ u, user = Some u → u ≠ "" → clientId ∈ index out.2 u)
  ∧ (∃ frame, formatSSEMessage (connectionEvent clientId now4) = Some frame
              ∧ Sink.written (streams out.2) r = [frame]
              ∧ Sink.is_readable (streams out.2) r = true)
  ∧ (∀ r', r' ≠ r → streams out.2 !! r' = streams m !! r').
Proof.
  intros Hroom r clientId out.
  destruct (connect_with_room user req now1 now2 now3 now4 rnd m Hroom)
    as (Hresp & Hcl & Huc & Hst).
  fold r clientId out in Hresp, Hcl, Huc, Hst.
  destruct (connectionEvent_encodes clientId now4) as [frame Hf].
  specialize (Hst frame Hf).
  split; [exact Hresp|].
  split; [by rewrite Hcl, lookup_insert_eq|].
  split; [intros k Hk; by rewrite Hcl, lookup_insert_ne|].
  split.
  { intros u -> Hu. unfold index. rewrite Huc.
    pose proof (register_index clientId r (Some u) (sessionId_of (Some u))
                  (Some (metadata_of req now2)) now3
                  (set_streams (<[r := mkStream true []]> (streams m)) m) u)
      as Hidx.
    unfold index in Hidx. rewrite Hidx.
    rewrite bool_decide_eq_true_2 by done. set_solver. }
  split.
  { exists frame. split; [exact Hf|].
    unfold Sink.written, Sink.is_readable.
    by rewrite Hst, lookup_insert_eq. }
  intros r' Hr'. by rewrite Hst, lookup_insert_ne.
Qed.

Lemma connect_registers_witness :
  Sink.written
    (streams (connect (Some "u7") (mkRequest (Some "curl") None None)
                10 11 12 13 "k3x" Example.fresh).2) 4
  = ["event: connection" +:+ nl +:+
     "data: {" +:+ quote "status" +:+ ":" +:+ quote "connected" +:+ "," +:+
     quote "clientId" +:+ ":" +:+ quote "client_10_k3x" +:+ "," +:+
     quote "timestamp" +:+ ":13}" +:+ nl +:+ nl].
Proof.
  assert (size (clients Example.fresh)
          < maxConnections (config Example.fresh))%nat as Hroom
    by (vm_compute; lia).
  destruct (connect_registers (Some "u7") (mkRequest (Some "curl") None None)
              10 11 12 13 "k3x" Example.fresh Hroom)
    as (_ & _ & _ & _ & (frame & Hf & Hw & _) & _).
  assert (fresh (dom (streams Example.fresh)) = 4) as Hr
    by (vm_compute; reflexivity).
  rewrite Hr in Hw. rewrite Hw. f_equal.
  vm_compute in Hf. injection Hf as <-. vm_compute. reflexivity.
Defined.

(** X19. A connection that comes and goes leaves no trace in the registry:
    after [connect] and the [cancel] of its stream, the connection map and
    the user index are as they were, when the id was not in use, there
    was room and the index matched the connection map; the stream of the
    connection accepts no more chunks. *)
Theorem connect_then_cancel user req (now1 now2 now3 now4 : Z) (rnd : string)
    (m : SSEManager) :
  clients m !! clientId_of now1 rnd = None →
  registry_invariant m →
  (size (clients m) < maxConnections (config m))%nat →
  let r := fresh (dom (streams m)) in
  let m' := cancel r (clientId_of now1 rnd)
              (connect user req now1 now2 now3 now4 rnd m).2 in
  clients m' = clients m
  ∧ userConnections m' = userConnections m
  ∧ Sink.is_readable (streams m') r = false.
Proof.
  intros Hfresh Hm Hroom r m'.
  destruct (connect_with_room user req now1 now2 now3 now4 rnd m Hroom)
    as (_ & Hcl & Huc & Hst).
  fold r in Hcl, Huc, Hst.
  set (m0 := set_streams (<[r := mkStream true []]> (streams m)) m) in *.
  set (out := connect user req now1 now2 now3 now4 rnd m) in *.
  set (clientId := clientId_of now1 rnd) in *.
  set (m2 := register clientId r user (sessionId_of user)
               (Some (metadata_of req now2)) now3 m0) in *.
  assert (registry_invariant m0) as Hm0 by exact Hm.
  pose proof (register_then_remove clientId r user (sessionId_of user)
                (Some (metadata_of req now2)) now3 m0 Hfresh Hm0)
    as [Hback1 Hback2]. simpl in Hback1, Hback2. fold m2 in Hback1, Hback2.
  assert (clients m2 = clients out.2) as Hc2.
  { unfold m2. by rewrite register_clients, Hcl. }
  destruct (removeClient_maps clientId m2
              (set_streams
                 (match Sink.close r (streams out.2) with
                  | Some h' => h' | None => streams out.2 end) out.2))
    as [Hc' Hu']; [by rewrite Hc2 | exact Huc|].
  split; [unfold m', cancel; by rewrite Hc', Hback1|].
  split; [unfold m', cancel; by rewrite Hu', Hback2|].
  unfold m', cancel. rewrite removeClient_readable. simpl.
  rewrite Hcl, lookup_insert_eq. simpl. by rewrite decide_True.
Qed.

Lemma connect_then_cancel_witness :
  clients (cancel (fresh (dom (streams Example.busy))) (clientId_of 10 "k3x")
             (connect (Some "u7") (mkRequest None None None)
                10 11 12 13 "k3x" Example.busy).2)
  = clients Example.busy.
Proof.
  assert (registry_invariant Example.busy) as Hm.
  { apply (run_invariant Example.setup Example.fresh).
    - vm_compute. tauto.
    - apply newSSEManager_invariant. }
  assert (size (clients Example.busy)
          < maxConnections (config Example.busy))%nat as Hroom
    by (vm_compute; lia).
  assert (clients Example.busy !! clientId_of 10 "k3x" = None) as Hfresh
    by (vm_compute; reflexivity).
  exact (proj1 (connect_then_cancel (Some "u7") (mkRequest None None None)
                  10 11 12 13 "k3x" Example.busy Hfresh Hm Hroom)).
Defined.

End RouteFacts.

(** ** No connection is dropped with its stream left open *)

Section Dropped.

Implicit Types (m : SSEManager) (clientId user : string) (event : SSEEvent).

Lemma drops_closed_refl m : drops_closed m m.
Proof.
  split; [done|]. split; [by eauto|]. intros k c Hc Hn. congruence.
Qed.

Lemma drops_closed_trans m1 m2 m3 :
  drops_closed m1 m2 → drops_closed m2 m3 → drops_closed m1 m3.
Proof.
  intros (Ha1 & Hb1 & Hc1) (Ha2 & Hb2 & Hc2).
  split; [by auto|]. split.
  - intros k c3 H3. destruct (Hb2 k c3 H3) as (c2 & H2 & Heq2).
    destruct (Hb1 k c2 H2) as (c1 & H1 & Heq1).
    exists c1. split; [done | congruence].
  - intros k c H1 H3. destruct (clients m2 !! k) as [c2|] eqn:H2.
    + destruct (Hb1 k c2 H2) as (c1 & H1' & Heq).
      assert (c1 = c) as -> by congruence.
      rewrite <- Heq. by apply (Hc2 k).
    + apply Ha2. by apply (Hc1 k).
Qed.

Lemma removeClient_drops_closed clientId m :
  drops_closed m (removeClient clientId m).
Proof.
  split; [|split].
  - intros r Hr. rewrite removeClient_readable.
    destruct (clients m !! clientId) as [c|]; [|done].
    by destruct (decide (controller c = r)).
  - intros k c'. rewrite removeClient_clients.
    intros [_ Hk]%lookup_delete_Some. by exists c'.
  - intros k c Hc. rewrite removeClient_clients.
    intros Hgone. rewrite removeClient_readable.
    destruct (decide (k = clientId)) as [->|Hne].
    + rewrite Hc. by rewrite decide_True.
    + rewrite lookup_delete_ne in Hgone by done. congruence.
Qed.

Lemma sendToClient_drops_closed clientId event m :
  drops_closed m (sendToClient clientId event m).1.
Proof.
  destruct (sendToClient_shape clientId event m)
    as [(c & frame & h & _ & _ & Hq & ->)|[[_ ->]|(_ & _ & ->)]]; simpl.
  - split; [|split].
    + intros r Hr. simpl. by rewrite (enqueue_readable _ _ _ _ r Hq).
    + intros k c' Hc'. by exists c'.
    + intros k c0 Hc0 Hn. simpl in Hn. congruence.
  - apply drops_closed_refl.
  - apply removeClient_drops_closed.
Qed.

Lemma ping_drops_closed now m clientId : drops_closed m (ping now m clientId).
Proof.
  destruct (sendToClient_drops_closed clientId (heartbeatEvent now) m)
    as (Ha & Hb & Hc).
  pose proof (sendToClient_clients clientId (heartbeatEvent now) m) as Hcl.
  split; [|split].
  - intros r Hr. rewrite ping_streams. by apply Ha.
  - intros k c'. rewrite ping_clients.
    destruct (accepts m (heartbeatEvent now) clientId).
    + rewrite lookup_alter. destruct (decide (clientId = k)) as [->|Hne].
      * destruct (clients m !! k) as [c|]; [|done].
        intros [= <-]. by exists c.
      * intros Hk. by exists c'.
    + intros [_ Hk]%lookup_delete_Some. by exists c'.
  - intros k c Hk. rewrite ping_clients, ping_streams.
    destruct (accepts m (heartbeatEvent now) clientId) eqn:Hacc.
    + rewrite lookup_alter. destruct (decide (clientId = k)) as [->|Hne].
      * by rewrite Hk.
      * congruence.
    + intros Hgone. apply (Hc k c Hk). by rewrite Hcl.
Qed.

Lemma remove_loop_drops_closed (ids : list string) m :
  drops_closed m (foldl (λ acc k, removeClient k acc) m ids).
Proof.
  apply (foldl_preserves (drops_closed m)); [|apply drops_closed_refl].
  intros acc k Hacc. eapply drops_closed_trans; [exact Hacc|].
  apply removeClient_drops_closed.
Qed.

Lemma send_loop_drops_closed event (ids : list string) m n :
  drops_closed m (foldl (send_count event) (m, n) ids).1.
Proof.
  apply (foldl_preserves (λ acc, drops_closed m acc.1));
    [|apply drops_closed_refl].
  intros acc k Hacc. rewrite send_count_fst.
  eapply drops_closed_trans; [exact Hacc|]. apply sendToClient_drops_closed.
Qed.

Lemma heartbeat_drops_closed now m : drops_closed m (heartbeat now m).
Proof.
  unfold heartbeat. apply (foldl_preserves (drops_closed m)).
  - intros acc k Hacc. eapply drops_closed_trans; [exact Hacc|].
    apply ping_drops_closed.
  - apply remove_loop_drops_closed.
Qed.

(** X20. The registry drops no connection with its stream left open:
    after any call of a method and any firing of the timer, the stream of
    a connection that was registered before and is not any more accepts
    no chunk. For [addClient] this is said of the calls with an id that
    is not registered, which drop no connection at all. *)
Theorem dropped_connection_is_closed (st : Step) (m : SSEManager)
    (k : string) (c : SSEClient) :
  match st with
  | CallAddClient clientId _ _ _ _ _ _ => clients m !! clientId = None
  | _ => True
  end →
  clients m !! k = Some c →
  clients (step st m) !! k = None →
  Sink.is_readable (streams (step st m)) (controller c) = false.
Proof.
  intros Hfresh Hk Hgone.
  assert (drops_closed m (step st m) → 
          Sink.is_readable (streams (step st m)) (controller c) = false)
    as Hfrom.
  { intros (_ & _ & Hc). by apply (Hc k). }
  destruct st; simpl in *.
  - exfalso. unfold addClient in Hgone.
    destruct (decide _); simpl in Hgone; [congruence|].
    rewrite sendToClient_clients in Hgone.
    assert (k ≠ clientId) as Hne by congruence.
    destruct (accepts _ _ _).
    + rewrite register_clients, lookup_insert_ne in Hgone by done. congruence.
    + rewrite lookup_delete_ne, register_clients, lookup_insert_ne in Hgone
        by done. congruence.
  - apply Hfrom, removeClient_drops_closed.
  - apply Hfrom, sendToClient_drops_closed.
  - apply Hfrom. unfold sendToUser.
    destruct (userConnections m !! user) as [s|]; [|apply drops_closed_refl].
    destruct (decide (size s = 0)); [apply drops_closed_refl|].
    apply send_loop_drops_closed.
  - apply Hfrom, send_loop_drops_closed.
  - apply Hfrom. destruct (heartbeatTimer m);
      [apply heartbeat_drops_closed | apply drops_closed_refl].
  - apply Hfrom. unfold destroy. destruct (heartbeatTimer m);
      [apply (remove_loop_drops_closed _ (set_heartbeatTimer false m))
      | apply remove_loop_drops_closed].
  - destruct (streams m !! r); simpl in Hgone; congruence.
  - destruct (Sink.close r (streams m)); simpl in Hgone; congruence.
Qed.

Lemma dropped_connection_is_closed_witness :
  Sink.is_readable
    (streams (step (CallBroadcast (mkEvent "custom" JUndefined None None))
                Example.busy)) 1 = false.
Proof.
  apply (dropped_connection_is_closed
           (CallBroadcast (mkEvent "custom" JUndefined None None))
           Example.busy "c1" (mkClient "c1" (Some "u1") None 1 5 None)).
  - exact I.
  - vm_compute. reflexivity.
  - vm_compute. reflexivity.
Defined.

End Dropped.

(** ** The contract of [sendToClient] *)

Section SendContract.

Implicit Types (m : SSEManager) (clientId user : string) (event : SSEEvent).

(** X21. [sendToClient] to an id that is not registered changes nothing
    and returns [false]. A send that returns [true] has added the frame
    of the event to the stream of the connection and changed nothing
    else. A send that returns [false] is final: the id is not registered
    afterwards, and any later send to it changes nothing and returns
    [false]. *)
Theorem sendToClient_contract (clientId : string) (event : SSEEvent)
    (m : SSEManager) :
  let out := sendToClient clientId event m in
  (clients m !! clientId = None → out = (m, false))
  ∧ (out.2 = true →
     ∃ c frame,
       clients m !! clientId = Some c
       ∧ formatSSEMessage event = Some frame
       ∧ Sink.is_readable (streams m) (controller c) = true
       ∧ out.1 = set_streams
                   (<[controller c :=
                        mkStream true
                          (Sink.written (streams m) (controller c) ++ [frame])]>
                      (streams m)) m)
  ∧ (out.2 = false →
     clients out.1 !! clientId = None
     ∧ ∀ event', sendToClient clientId event' out.1 = (out.1, false)).
Proof.
  intros out. unfold out.
  destruct (sendToClient_shape clientId event m)
    as [(c & frame & h & Hc & Hf & Hq & Hs)|[[Hc Hs]|(Hc & Ha & Hs)]].
  - rewrite Hs. simpl. split; [congruence|]. split; [|done].
    intros _. exists c, frame. split; [done|]. split; [done|].
    unfold Sink.enqueue in Hq. unfold Sink.is_readable, Sink.written.
    destruct (streams m !! controller c) as [st|]; [|done].
    destruct (readable st); [|done]. by injection Hq as <-.
  - rewrite Hs. simpl. split; [done|]. split; [done|].
    intros _. split; [done|]. intros event'. unfold sendToClient.
    by rewrite Hc.
  - rewrite Hs. simpl. split; [by destruct Hc; congruence|].
    split; [done|]. intros _.
    assert (clients (removeClient clientId m) !! clientId = None) as Hgone
      by by rewrite removeClient_clients, lookup_delete_eq.
    split; [exact Hgone|]. intros event'. unfold sendToClient.
    by rewrite Hgone.
Qed.

Lemma sendToClient_contract_witness :
  (sendToClient "c2" Example.note Example.busy).2 = false
  ∧ sendToClient "c2" Example.note
      (sendToClient "c2" Example.note Example.busy).1
    = ((sendToClient "c2" Example.note Example.busy).1, false).
Proof.
  assert ((sendToClient "c2" Example.note Example.busy).2 = false) as Hfail
    by (vm_compute; reflexivity).
  split; [exact Hfail|].
  destruct (sendToClient_contract "c2" Example.note Example.busy)
    as (_ & _ & Hfinal).
  apply (Hfinal Hfail).
Defined.

End SendContract.

(** ** What stays as it is *)

Section Stability.

Implicit Types (m : SSEManager) (clientId user : string) (event : SSEEvent).

Lemma sendToClient_timer clientId event m :
  heartbeatTimer (sendToClient clientId event m).1 = heartbeatTimer m.
Proof.
  destruct (sendToClient_shape clientId event m)
    as [(c & frame & h & _ & _ & _ & ->)|[[_ ->]|(_ & _ & ->)]]; simpl;
    auto using removeClient_timer.
Qed.

Lemma register_timer clientId ctrl us se me now1 m :
  heartbeatTimer (register clientId ctrl us se me now1 m) = heartbeatTimer m.
Proof.
  unfold register. destruct us as [u|]; [|done].
  by destruct (truthy_string u).
Qed.

Lemma ping_timer now m clientId :
  heartbeatTimer (ping now m clientId) = heartbeatTimer m.
Proof.
  unfold ping.
  pose proof (sendToClient_timer clientId (heartbeatEvent now) m) as Ht.
  destruct (sendToClient clientId (heartbeatEvent now) m) as [m' ok].
  destruct ok; [|done]. simpl in *. by destruct (clients m' !! clientId).
Qed.

Lemma send_loop_timer event (ids : list string) m n :
  heartbeatTimer (foldl (send_count event) (m, n) ids).1 = heartbeatTimer m.
Proof.
  apply (foldl_preserves (λ acc, heartbeatTimer acc.1 = heartbeatTimer m));
    [|done].
  intros acc k Hacc. by rewrite send_count_fst, sendToClient_timer.
Qed.

(** No step starts the timer. *)
Lemma step_timer_off st m :
  heartbeatTimer m = false → heartbeatTimer (step st m) = false.
Proof.
  intros Hoff. destruct st; simpl.
  - unfold addClient. destruct (decide _); simpl; [done|].
    by rewrite sendToClient_timer, register_timer.
  - by rewrite removeClient_timer.
  - by rewrite sendToClient_timer.
  - unfold sendToUser. destruct (userConnections m !! user) as [s|]; [|done].
    destruct (decide (size s = 0)); [done|]. by rewrite send_loop_timer.
  - unfold broadcast. by rewrite send_loop_timer.
  - by rewrite Hoff.
  - unfold destroy. rewrite remove_loop_timer. by rewrite Hoff.
  - by destruct (streams m !! r).
  - by destruct (Sink.close r (streams m)).
Qed.

(** X22. [destroy] is for good as far as the reaper goes, and for the
    reaper only: whatever is done afterwards the timer is not started
    again, and a firing of the timer changes nothing; yet [addClient]
    goes on registering connections when there is room, and these are
    never reaped. *)
Theorem timer_stays_off (steps : list Step) (m : SSEManager) :
  let m' := run steps (destroy m) in
  heartbeatTimer m' = false
  ∧ (∀ now, step (TimerFires now) m' = m')
  ∧ (∀ clientId ctrl us se me now1 now2,
        (size (clients m') < maxConnections (config m'))%nat →
        (addClient clientId ctrl us se me now1 now2 m').1 = Normal ()).
Proof.
  intros m'.
  assert (heartbeatTimer m' = false) as Hoff.
  { unfold m'.
    assert (heartbeatTimer (destroy m) = false) as H0.
    { unfold destroy. rewrite remove_loop_timer.
      by destruct (heartbeatTimer m) eqn:Ht. }
    revert H0. generalize (destroy m). clear m m'.
    induction steps as [|st steps IH]; intros m H0; [done|].
    change (run (st :: steps) m) with (run steps (step st m)).
    by apply IH, step_timer_off. }
  split; [exact Hoff|]. split.
  - intros now. simpl. by rewrite Hoff.
  - intros. by rewrite addClient_below.
Qed.

Lemma timer_stays_off_witness :
  is_Some (clients (run [StreamOpens 9; CallAddClient "late" 9 None None None 5 6]
                      (destroy Example.busy)) !! "late")
  ∧ step (TimerFires 99999999)
      (run [StreamOpens 9; CallAddClient "late" 9 None None None 5 6]
         (destroy Example.busy))
    = run [StreamOpens 9; CallAddClient "late" 9 None None None 5 6] (destroy Example.busy).
Proof.
  split; [vm_compute; by eexists|].
  exact (proj1 (proj2 (timer_stays_off
                  [StreamOpens 9; CallAddClient "late" 9 None None None 5 6] Example.busy))
           99999999%Z).
Defined.

Lemma set_lastPing_same (c : SSEClient) : set_lastPing (lastPing c) c = c.
Proof. by destruct c. Qed.

Lemma keeps_as_they_are_keeps m m' :
  keeps_records_as_they_are m m' → keeps_records m m'.
Proof.
  intros H k c' Hc'. exists c'. split; [by apply H|].
  by rewrite set_lastPing_same.
Qed.

Lemma keeps_records_as_they_are_refl m : keeps_records_as_they_are m m.
Proof. by intros k c Hc. Qed.

Lemma keeps_records_as_they_are_trans m1 m2 m3 :
  keeps_records_as_they_are m1 m2 → keeps_records_as_they_are m2 m3 →
  keeps_records_as_they_are m1 m3.
Proof. intros H12 H23 k c Hc. by apply H12, H23. Qed.

Lemma keeps_records_trans m1 m2 m3 :
  keeps_records m1 m2 → keeps_records m2 m3 → keeps_records m1 m3.
Proof.
  intros H12 H23 k c3 H3.
  destruct (H23 k c3 H3) as (c2 & H2 & Heq3).
  destruct (H12 k c2 H2) as (c1 & H1 & Heq2).
  exists c1. split; [done|]. rewrite Heq3, Heq2. by destruct c1.
Qed.

Lemma removeClient_keeps clientId m :
  keeps_records_as_they_are m (removeClient clientId m).
Proof.
  intros k c. rewrite removeClient_clients.
  by intros [_ Hk]%lookup_delete_Some.
Qed.

Lemma sendToClient_keeps clientId event m :
  keeps_records_as_they_are m (sendToClient clientId event m).1.
Proof.
  intros k c. rewrite sendToClient_clients.
  destruct (accepts m event clientId); [done|].
  by intros [_ Hk]%lookup_delete_Some.
Qed.

Lemma send_loop_keeps event (ids : list string) m n :
  keeps_records_as_they_are m (foldl (send_count event) (m, n) ids).1.
Proof.
  apply (foldl_preserves (λ acc, keeps_records_as_they_are m acc.1));
    [|apply keeps_records_as_they_are_refl].
  intros acc k Hacc. rewrite send_count_fst.
  eapply keeps_records_as_they_are_trans; [exact Hacc|].
  apply sendToClient_keeps.
Qed.

Lemma remove_loop_keeps (ids : list string) m :
  keeps_records_as_they_are m (foldl (λ acc k, removeClient k acc) m ids).
Proof.
  apply (foldl_preserves (keeps_records_as_they_are m));
    [|apply keeps_records_as_they_are_refl].
  intros acc k Hacc.
  eapply keeps_records_as_they_are_trans; [exact Hacc|].
  apply removeClient_keeps.
Qed.

Lemma ping_keeps now m clientId : keeps_records m (ping now m clientId).
Proof.
  intros k c'. rewrite ping_clients.
  destruct (accepts m (heartbeatEvent now) clientId).
  - rewrite lookup_alter. destruct (decide (clientId = k)) as [->|Hne].
    + destruct (clients m !! k) as [c|]; [|done].
      intros [= <-]. by exists c.
    + intros Hk. exists c'. split; [done|]. by rewrite set_lastPing_same.
  - intros [_ Hk]%lookup_delete_Some. exists c'.
    split; [done|]. by rewrite set_lastPing_same.
Qed.

Lemma heartbeat_keeps now m : keeps_records m (heartbeat now m).
Proof.
  unfold heartbeat. apply (foldl_preserves (keeps_records m)).
  - intros acc k Hacc. eapply keeps_records_trans; [exact Hacc|].
    apply ping_keeps.
  - apply keeps_as_they_are_keeps, remove_loop_keeps.
Qed.

(** X23. A record is written once: no method other than [addClient] puts
    a record in the connection map or changes the id, the user, the
    session, the controller or the metadata of one; [removeClient],
    [sendToClient], [sendToUser], [broadcast] and [destroy] leave the
    records that stay exactly as they were, and the heartbeat changes
    nothing of them but [lastPing]. *)
Theorem records_are_kept (st : Step) (m : SSEManager) (k : string)
    (c' : SSEClient) :
  match st with
  | CallAddClient _ _ _ _ _ _ _ => False
  | _ => True
  end →
  clients (step st m) !! k = Some c' →
  ∃ c, clients m !! k = Some c
       ∧ c' = set_lastPing (lastPing c') c
       ∧ (match st with TimerFires _ => True | _ => c' = c end).
Proof.
  intros Hst Hc'.
  assert (keeps_records_as_they_are m (step st m) →
          ∃ c, clients m !! k = Some c
               ∧ c' = set_lastPing (lastPing c') c ∧ c' = c) as Hsame.
  { intros H. exists c'. split; [by apply H|].
    by rewrite set_lastPing_same. }
  destruct st; simpl in *; try done.
  - destruct (Hsame (removeClient_keeps _ _)) as (c & ? & ? & ?). eauto.
  - destruct (Hsame (sendToClient_keeps _ _ _)) as (c & ? & ? & ?). eauto.
  - assert (keeps_records_as_they_are m (sendToUser user event m).1) as Hk.
    { unfold sendToUser. destruct (userConnections m !! user) as [s|];
        [|apply keeps_records_as_they_are_refl].
      destruct (decide (size s = 0)); [apply keeps_records_as_they_are_refl|].
      apply send_loop_keeps. }
    destruct (Hsame Hk) as (c & ? & ? & ?). eauto.
  - destruct (Hsame (send_loop_keeps _ _ _ _)) as (c & ? & ? & ?). eauto.
  - assert (keeps_records m (if heartbeatTimer m then heartbeat now m else m))
      as Hk.
    { destruct (heartbeatTimer m); [apply heartbeat_keeps|].
      apply keeps_as_they_are_keeps, keeps_records_as_they_are_refl. }
    destruct (Hk k c' Hc') as (c & ? & ?). eauto.
  - assert (keeps_records_as_they_are m (destroy m)) as Hk.
    { unfold destroy. destruct (heartbeatTimer m);
        [apply (remove_loop_keeps _ (set_heartbeatTimer false m))
        | apply remove_loop_keeps]. }
    destruct (Hsame Hk) as (c & ? & ? & ?). eauto.
  - apply Hsame. intros ? ?. by destruct (streams m !! r).
  - apply Hsame. intros ? ?. by destruct (Sink.close r (streams m)).
Qed.

Lemma records_are_kept_witness :
  ∃ c, clients Example.busy !! "c3" = Some c
       ∧ mkClient "c3" (Some "u2") None 3 60005 None
         = set_lastPing 60005 c.
Proof.
  destruct (records_are_kept (TimerFires 60005) Example.busy "c3"
              (mkClient "c3" (Some "u2") None 3 60005 None) I)
    as (c & Hc & Heq & _).
  - vm_compute. reflexivity.
  - exists c. by split.
Defined.

End Stability.
